(** * esp32-geo: sensor transmitter, relay client and in-memory store

    A shallow embedding of the TypeScript sources

    - server/storage.ts   ([MemStorage], the in-memory persistence store),
    - server/routes.ts    (the REST routes and the ESP32 relay),
    - client/src/lib/esp32-client.ts ([ESP32Client]),
    - client/src/hooks/use-sensors.ts and the [SensorTransmitter] page
      (the transmission loop),

    together with the properties the specification states about them.

    Conventions.  JavaScript numbers that hold integers (ids, counters,
    millisecond time stamps, HTTP status codes) are embedded as [Z]; they
    are exact in JavaScript below 2^53.  Numbers that hold measurements or
    ratios (coordinates, accelerations, the success rate) are embedded as
    exact rationals [Q], so [/] and [*] are the exact operations where
    JavaScript rounds to the nearest double.  [undefined] and [null] are
    [None].  A JavaScript [Map] is an association list in insertion order,
    which is the order [Map.prototype.values] iterates in. *)

From Stdlib Require Import ZArith QArith List String Ascii Bool Lia.
From Stdlib Require Import Permutation Sorted.
From Stdlib Require DecimalString.
Import ListNotations.

Local Open Scope Z_scope.

(* ------------------------------------------------------------------ *)
(** * JavaScript built-ins used by the sources *)
(* ------------------------------------------------------------------ *)

Module JS.

(** ** [Map] with numeric keys *)

Definition Map (V : Type) : Type := list (Z * V).

Definition map_empty {V : Type} : Map V := [].

Fixpoint map_get {V : Type} (k : Z) (m : Map V) : option V :=
match m with
| [] => None
| (k', v) :: m' => if k =? k' then Some v else map_get k m'
end.

(** [Map.prototype.set]: an existing key keeps its position and gets the
  new value, a new key is appended. *)
Fixpoint map_set {V : Type} (k : Z) (v : V) (m : Map V) : Map V :=
match m with
| [] => [(k, v)]
| (k', v') :: m' =>
    if k =? k' then (k, v) :: m' else (k', v') :: map_set k v m'
end.

Definition map_keys {V : Type} (m : Map V) : list Z := map fst m.

(** [Array.from(m.values())] *)
Definition map_values {V : Type} (m : Map V) : list V := map snd m.

(** ** [Array.prototype.sort] with a comparator

  The sort is stable (ECMAScript 2019): [a] is placed before [b] when
  [cmp a b < 0], after it when [cmp a b > 0], and elements that compare
  equal keep their order.  Insertion from the right realises exactly
  that order. *)

Section Sort.
Context {A : Type} (cmp : A -> A -> Z).

Fixpoint insert (x : A) (l : list A) : list A :=
  match l with
  | [] => [x]
  | y :: l' => if cmp x y <=? 0 then x :: l else y :: insert x l'
  end.

Fixpoint sort (l : list A) : list A :=
  match l with
  | [] => []
  | x :: l' => insert x (sort l')
  end.
End Sort.

(** ** [Array.prototype.slice(0, end)] for an integer [end]

    A negative [end] counts from the end of the array. *)
Definition slice0 {A : Type} (end_ : Z) (l : list A) : list A :=
  let len := Z.of_nat (List.length l) in
  let k := if end_ <? 0 then Z.max (len + end_) 0 else Z.min end_ len in
  firstn (Z.to_nat k) l.

(** ** [parseInt(s)] without a radix argument

    Leading white space is skipped, a sign is read, a [0x]/[0X] prefix
    selects radix 16, and the longest prefix of digits is converted; the
    result is [NaN] ([None]) when there is no digit.  The value is the
    mathematical integer; JavaScript rounds it to a double above 2^53. *)

Definition is_white (c : ascii) : bool :=
  let n := nat_of_ascii c in
  ((n =? 32) || (n =? 9) || (n =? 10) || (n =? 11) || (n =? 12) || (n =? 13))%nat.

Fixpoint skip_white (s : string) : string :=
  match s with
  | String c s' => if is_white c then skip_white s' else s
  | EmptyString => s
  end.

Definition digit_value (radix : Z) (c : ascii) : option Z :=
  let n := Z.of_nat (nat_of_ascii c) in
  let v :=
    if (48 <=? n) && (n <=? 57) then Some (n - 48)
    else if (97 <=? n) && (n <=? 122) then Some (n - 87)
    else if (65 <=? n) && (n <=? 90) then Some (n - 55)
    else None in
  match v with
  | Some d => if d <? radix then Some d else None
  | None => None
  end.

(** [digits radix s acc seen]: the value of the longest digit prefix of
    [s], continuing from [acc]; [seen] records whether a digit was read. *)
Fixpoint digits (radix : Z) (s : string) (acc : Z) (seen : bool) : option Z :=
  match s with
  | EmptyString => if seen then Some acc else None
  | String c s' =>
      match digit_value radix c with
      | Some d => digits radix s' (acc * radix + d) true
      | None => if seen then Some acc else None
      end
  end.

Definition strip_hex_prefix (s : string) : option string :=
  match s with
  | String "0" (String "x" s') => Some s'
  | String "0" (String "X" s') => Some s'
  | _ => None
  end.

Definition parseInt_string (s : string) : option Z :=
  let s1 := skip_white s in
  let '(sign, s2) :=
    match s1 with
    | String "-" r => (-1, r)
    | String "+" r => (1, r)
    | _ => (1, s1)
    end in
  let '(radix, s3) :=
    match strip_hex_prefix s2 with
    | Some r => (16, r)
    | None => (10, s2)
    end in
  match digits radix s3 0 false with
  | Some n => Some (sign * n)
  | None => None
  end.

(** [parseInt(x)] for [x : string | undefined]: [undefined] is first
    converted to the string ["undefined"], which has no digit. *)
Definition parseInt (x : option string) : option Z :=
  match x with
  | Some s => parseInt_string s
  | None => parseInt_string "undefined"
  end.

(** [n || d] for a number [n]: [NaN] and [0] are falsy. *)
Definition number_or (n : option Z) (d : Z) : Z :=
  match n with
  | Some v => if v =? 0 then d else v
  | None => d
  end.

(** [s.includes(sub)] *)
Fixpoint includes (sub s : string) : bool :=
  if String.prefix sub s then true
  else match s with
       | EmptyString => false
       | String _ s' => includes sub s'
       end.

(** Decimal rendering of an integer inside a template literal. *)
Definition string_of_Z (z : Z) : string :=
  DecimalString.NilZero.string_of_int (Z.to_int z).

(** [x || d] for [x : string | undefined]: the empty string is falsy. *)
Definition string_or (x : option string) (d : string) : string :=
  match x with
  | Some EmptyString => d
  | Some s => s
  | None => d
  end.

End JS.

(* ------------------------------------------------------------------ *)
(** * shared/schema.ts: the stored records *)
(* ------------------------------------------------------------------ *)

Module Schema.

Record InsertUser := mkInsertUser {
  iu_username : string;
  iu_password : string
}.

Record User := mkUser {
  u_username : string;
  u_password : string;
  u_id : Z
}.

Record InsertSensorData := mkInsertSensorData {
  isd_latitude : Q;
  isd_longitude : Q;
  isd_accuracy : option Q;
  isd_accelerometerX : Q;
  isd_accelerometerY : Q;
  isd_accelerometerZ : Q
}.

Record SensorData := mkSensorData {
  sd_fields : InsertSensorData;
  sd_id : Z;
  sd_timestamp : Z            (* [Date.getTime()], milliseconds *)
}.

Record InsertTransmissionLog := mkInsertTransmissionLog {
  itl_esp32IpAddress : string;
  itl_sensorDataId : option Z;
  itl_success : bool;
  itl_errorMessage : option string
}.

Record TransmissionLog := mkTransmissionLog {
  tl_fields : InsertTransmissionLog;
  tl_id : Z;
  tl_timestamp : Z
}.

Definition tl_success (l : TransmissionLog) : bool := itl_success (tl_fields l).

End Schema.

(* ------------------------------------------------------------------ *)
(** * server/storage.ts: [MemStorage] *)
(* ------------------------------------------------------------------ *)

Module Storage.
Import Schema.

Record MemStorage := mkMemStorage {
  users : JS.Map User;
  sensorData : JS.Map SensorData;
  transmissionLogs : JS.Map TransmissionLog;
  currentUserId : Z;
  currentSensorDataId : Z;
  currentTransmissionLogId : Z
}.

(** The constructor. *)
Definition new : MemStorage :=
  {| users := JS.map_empty;
     sensorData := JS.map_empty;
     transmissionLogs := JS.map_empty;
     currentUserId := 1;
     currentSensorDataId := 1;
     currentTransmissionLogId := 1 |}.

Definition getUser (id : Z) (st : MemStorage) : option User :=
  JS.map_get id (users st).

Definition getUserByUsername (name : string) (st : MemStorage) : option User :=
  find (fun u => String.eqb (u_username u) name) (JS.map_values (users st)).

(** Each [create] returns the updated store and the record it stored.
    [id = this.currentXId++] reads the counter, then increments it. *)
Definition createUser (insertUser : InsertUser) (st : MemStorage)
  : MemStorage * User :=
  let id := currentUserId st in
  let user := {| u_username := iu_username insertUser;
                 u_password := iu_password insertUser;
                 u_id := id |} in
  ({| users := JS.map_set id user (users st);
      sensorData := sensorData st;
      transmissionLogs := transmissionLogs st;
      currentUserId := id + 1;
      currentSensorDataId := currentSensorDataId st;
      currentTransmissionLogId := currentTransmissionLogId st |}, user).

(** [now] is the value of [new Date()] at the call. *)
Definition createSensorData (insertData : InsertSensorData) (now : Z)
  (st : MemStorage) : MemStorage * SensorData :=
  let id := currentSensorDataId st in
  let data := {| sd_fields := insertData; sd_id := id; sd_timestamp := now |} in
  ({| users := users st;
      sensorData := JS.map_set id data (sensorData st);
      transmissionLogs := transmissionLogs st;
      currentUserId := currentUserId st;
      currentSensorDataId := id + 1;
      currentTransmissionLogId := currentTransmissionLogId st |}, data).

Definition createTransmissionLog (insertLog : InsertTransmissionLog) (now : Z)
  (st : MemStorage) : MemStorage * TransmissionLog :=
  let id := currentTransmissionLogId st in
  let log := {| tl_fields := insertLog; tl_id := id; tl_timestamp := now |} in
  ({| users := users st;
      sensorData := sensorData st;
      transmissionLogs := JS.map_set id log (transmissionLogs st);
      currentUserId := currentUserId st;
      currentSensorDataId := currentSensorDataId st;
      currentTransmissionLogId := id + 1 |}, log).

(** [(a, b) => b.timestamp.getTime() - a.timestamp.getTime()] *)
Definition newest_first_sd (a b : SensorData) : Z :=
  sd_timestamp b - sd_timestamp a.

Definition newest_first_tl (a b : TransmissionLog) : Z :=
  tl_timestamp b - tl_timestamp a.

Definition getRecentSensorData (limit : Z) (st : MemStorage) : list SensorData :=
  let allData := JS.map_values (sensorData st) in
  JS.slice0 limit (JS.sort newest_first_sd allData).

Record Stats := mkStats {
  totalTransmissions : Z;
  successfulTransmissions : Z;
  successRate : Q;
  lastTransmission : option Z
}.

Definition getTransmissionStats (st : MemStorage) : Stats :=
  let logs := JS.map_values (transmissionLogs st) in
  let total := Z.of_nat (List.length logs) in
  let successful := Z.of_nat (List.length (filter tl_success logs)) in
  let rate :=
    if 0 <? total
    then ((inject_Z successful / inject_Z total) * inject_Z 100)%Q
    else inject_Z 0 in
  let last :=
    if (0 <? Z.of_nat (List.length logs))
    then option_map tl_timestamp (hd_error (JS.sort newest_first_tl logs))
    else None in
  {| totalTransmissions := total;
     successfulTransmissions := successful;
     successRate := rate;
     lastTransmission := last |}.

(** A sequence of write operations on the store, as the routes and any
    other caller may issue them. *)
Inductive Op :=
| OpCreateUser (u : InsertUser)
| OpCreateSensorData (d : InsertSensorData) (now : Z)
| OpCreateTransmissionLog (l : InsertTransmissionLog) (now : Z).

Definition apply (op : Op) (st : MemStorage) : MemStorage :=
  match op with
  | OpCreateUser u => fst (createUser u st)
  | OpCreateSensorData d now => fst (createSensorData d now st)
  | OpCreateTransmissionLog l now => fst (createTransmissionLog l now st)
  end.

(** The id the operation hands out. *)
Definition assigned_id (op : Op) (st : MemStorage) : Z :=
  match op with
  | OpCreateUser u => u_id (snd (createUser u st))
  | OpCreateSensorData d now => sd_id (snd (createSensorData d now st))
  | OpCreateTransmissionLog l now => tl_id (snd (createTransmissionLog l now st))
  end.

(** The keys of the map the operation writes to. *)
Definition keys_of_kind (op : Op) (st : MemStorage) : list Z :=
  match op with
  | OpCreateUser _ => JS.map_keys (users st)
  | OpCreateSensorData _ _ => JS.map_keys (sensorData st)
  | OpCreateTransmissionLog _ _ => JS.map_keys (transmissionLogs st)
  end.

Definition run (ops : list Op) (st : MemStorage) : MemStorage :=
  fold_left (fun s op => apply op s) ops st.

End Storage.

(* ------------------------------------------------------------------ *)
(** * server/routes.ts *)
(* ------------------------------------------------------------------ *)

Module Http.

(** [response.ok]: the status is in the range 200-299. *)
Definition ok (status : Z) : bool := (200 <=? status) && (status <=? 299).

(** What a [catch] clause receives: an [Error] with its message, or any
    other thrown value. *)
Inductive Thrown :=
| ErrorObject (message : string)
| OtherValue.

(** [error instanceof Error ? error.message : fallback] *)
Definition message_or (e : Thrown) (fallback : string) : string :=
  match e with
  | ErrorObject m => m
  | OtherValue => fallback
  end.

(** The outcome of [await fetch(url, ...)]: a response with a status, or a
    rejection (network fault, abort after the 5 second timeout). *)
Inductive FetchOutcome :=
| Responded (status : Z)
| Rejected (e : Thrown).

End Http.

Module Wire.

(** [ESP32Data] of esp32-client.ts: the payload sent to the device. *)
Record ESP32Data := mkESP32Data {
  gps_latitude : Q;
  gps_longitude : Q;
  gps_accuracy : option Q;
  acc_x : Q;
  acc_y : Q;
  acc_z : Q;
  timestamp : Z
}.

(** [`http://${ipAddress}/sensor-data`] *)
Definition esp32Url (ipAddress : string) : string :=
  ("http://" ++ ipAddress ++ "/sensor-data")%string.

(** [`ESP32 responded with status ${response.status}`] *)
Definition status_message (status : Z) : string :=
  ("ESP32 responded with status " ++ JS.string_of_Z status)%string.

End Wire.

Module Routes.
Import Schema Http Wire.

(** ** GET /api/sensor-data

    [req.query.limit] is [None] when the parameter is absent. *)
Definition sensor_data_limit (query_limit : option string) : Z :=
  JS.number_or (JS.parseInt query_limit) 10.

Definition get_sensor_data (query_limit : option string)
  (st : Storage.MemStorage) : list SensorData :=
  let limit := sensor_data_limit query_limit in
  Storage.getRecentSensorData limit st.

(** ** GET /api/transmission-stats *)
Definition get_transmission_stats (st : Storage.MemStorage) : Storage.Stats :=
  Storage.getTransmissionStats st.

(** ** POST /api/test-esp32, the relay

    The body fields may be missing; the empty string is falsy as well. *)
Record RelayRequest := mkRelayRequest {
  rq_ipAddress : option string;
  rq_data : option ESP32Data
}.

(** The responses the handler writes. *)
Inductive RelayResponse :=
| BadRequest (error : string)
    (* status 400, body { error } *)
| Result (status : Z) (success : bool) (error message : option string).
    (* status, body { success, error?, message? } *)

Definition response_status (r : RelayResponse) : Z :=
  match r with
  | BadRequest _ => 400
  | Result s _ _ _ => s
  end.

Definition test_esp32 (fetch : string -> ESP32Data -> FetchOutcome)
  (req : RelayRequest) : RelayResponse :=
  match rq_ipAddress req, rq_data req with
  | None, _ | Some EmptyString, _ | _, None =>
      BadRequest "IP address and data are required"
  | Some ipAddress, Some data =>
      match fetch (esp32Url ipAddress) data with
      | Responded status =>
          if ok status
          then Result 200 true None (Some "ESP32 communication successful"%string)
          else Result status false (Some (status_message status)) None
      | Rejected error =>
          Result 500 false
            (Some (message_or error "Failed to connect to ESP32")) None
      end
  end.

End Routes.

(* ------------------------------------------------------------------ *)
(** * client/src/lib/esp32-client.ts: [ESP32Client] *)
(* ------------------------------------------------------------------ *)

Module Client.
Import Http Wire.

Record ESP32Client := mkESP32Client { ipAddress : string }.

Definition updateIPAddress (ip : string) (c : ESP32Client) : ESP32Client :=
  {| ipAddress := ip |}.

(** [{ success: boolean; error?: string }] *)
Record SendResult := mkSendResult {
  success : bool;
  error : option string
}.

(** What [await apiRequest('POST', '/api/test-esp32', ...)] followed by
    [await response.json()] yields inside the inner [try]: the parsed
    body, of which [success] and [error] are read, or an exception. *)
Inductive RelayOutcome :=
| RelayReplied (success : bool) (error : option string)
| RelayFaulted.

(** The network as the client sees it: the device reached directly, and
    the relay reached through [apiRequest]. *)
Record Network := mkNetwork {
  device : string -> ESP32Data -> FetchOutcome;
  relay : string -> ESP32Data -> RelayOutcome
}.

Definition cors_message : string :=
  "CORS error - ESP32 may not allow browser requests".

(** The outer [try] block: the direct call.  [inl] is its [return],
    [inr] the value its [catch] receives. *)
Definition direct (net : Network) (c : ESP32Client) (data : ESP32Data)
  : SendResult + Thrown :=
  match device net (esp32Url (ipAddress c)) data with
  | Responded status =>
      if ok status
      then inl {| success := true; error := None |}
      else inr (ErrorObject (status_message status))
  | Rejected e => inr e
  end.

Definition sendData (net : Network) (c : ESP32Client) (data : ESP32Data)
  : SendResult :=
  match direct net c data with
  | inl r => r
  | inr error_ =>
      match relay net (ipAddress c) data with
      | RelayReplied s e => {| success := s; error := e |}
      | RelayFaulted =>
          let errorMessage := message_or error_ "Failed to connect to ESP32" in
          {| success := false;
             error := Some (if JS.includes "CORS" errorMessage
                            then cors_message
                            else errorMessage) |}
      end
  end.

(** [now] is the value of [Date.now()]. *)
Definition testData (now : Z) : ESP32Data :=
  {| gps_latitude := inject_Z 0; gps_longitude := inject_Z 0;
     gps_accuracy := None;
     acc_x := inject_Z 0; acc_y := inject_Z 0; acc_z := inject_Z 0;
     timestamp := now |}.

Definition testConnection (net : Network) (c : ESP32Client) (now : Z)
  : SendResult :=
  sendData net c (testData now).

(** Modelled from the spec: [apiRequest] of client/src/lib/queryClient.ts
    is not among the sources.  The specification gives the relay
    response as [{ success, error? }] "or a non-2xx status treated as
    relay failure"; a request that does not reach the server fails too. *)
Definition apiRequest_json (answer : option Routes.RelayResponse) : RelayOutcome :=
  match answer with
  | None => RelayFaulted
  | Some (Routes.BadRequest _) => RelayFaulted
  | Some (Routes.Result status s e _) =>
      if ok status then RelayReplied s e else RelayFaulted
  end.

(** The network in which the relay is this repository's server route:
    [reachable] tells whether the browser reaches the server, and
    [server_fetch] is the device as the server reaches it. *)
Definition through_server (browser_fetch server_fetch : string -> ESP32Data -> FetchOutcome)
  (reachable : bool) : Network :=
  {| device := browser_fetch;
     relay := fun ip data =>
       apiRequest_json
         (if reachable
          then Some (Routes.test_esp32 server_fetch
                       {| Routes.rq_ipAddress := Some ip;
                          Routes.rq_data := Some data |})
          else None) |}.

End Client.

(* ------------------------------------------------------------------ *)
(** * client/src/hooks/use-sensors.ts: [useSensors] *)
(* ------------------------------------------------------------------ *)

Module Sensors.

Record GPSData := mkGPSData {
  latitude : Q;
  longitude : Q;
  accuracy : option Q;
  gps_timestamp : Z
}.

Record AccelerometerData := mkAccelerometerData {
  x : Q;
  y : Q;
  z : Q;
  acc_timestamp : Z
}.

Inductive Permission := granted | denied | prompt | unknown.

Definition is_granted (p : Permission) : bool :=
  match p with granted => true | _ => false end.

Record SensorPermissions := mkSensorPermissions {
  gps : Permission;
  motion : Permission
}.

Record Errors := mkErrors {
  gps_error : option string;
  motion_error : option string
}.

(** The state the hook holds. *)
Record State := mkState {
  gpsData : option GPSData;
  accelerometerData : option AccelerometerData;
  permissions : SensorPermissions;
  errors : Errors
}.

Definition initial : State :=
  {| gpsData := None;
     accelerometerData := None;
     permissions := {| gps := unknown; motion := unknown |};
     errors := {| gps_error := None; motion_error := None |} |}.

Definition getGeolocationErrorMessage (code : Z) : string :=
  if code =? 1 then "Location access denied"
  else if code =? 2 then "Location unavailable"
  else if code =? 3 then "Location request timeout"
  else "Unknown location error".

(** How the platform answers [requestGPSPermission]. *)
Inductive GPSRequest :=
| NoGeolocation                 (* [!navigator.geolocation] *)
| PositionObtained              (* [getCurrentPosition] succeeded *)
| PositionError (code : Z)      (* rejected with a GeolocationPositionError *)
| PositionThrew.                (* rejected with anything else *)

(** How the platform answers [requestMotionPermission]. *)
Inductive MotionRequest :=
| NoDeviceMotion                      (* [!window.DeviceMotionEvent] *)
| PermissionAnswer (answer : string)  (* iOS 13+: [requestPermission()] resolved *)
| NoPermissionFunction                (* other devices: grant assumed *)
| RequestThrew.

Definition set_gps (p : Permission) (e : option string) (s : State) : State :=
  {| gpsData := gpsData s;
     accelerometerData := accelerometerData s;
     permissions := {| gps := p; motion := motion (permissions s) |};
     errors := {| gps_error := e; motion_error := motion_error (errors s) |} |}.

Definition set_motion (p : Permission) (e : option string) (s : State) : State :=
  {| gpsData := gpsData s;
     accelerometerData := accelerometerData s;
     permissions := {| gps := gps (permissions s); motion := p |};
     errors := {| gps_error := gps_error (errors s); motion_error := e |} |}.

Definition requestGPSPermission (r : GPSRequest) (s : State) : State :=
  match r with
  | NoGeolocation => set_gps denied (Some "Geolocation not supported"%string) s
  | PositionObtained => set_gps granted None s
  | PositionError code => set_gps denied (Some (getGeolocationErrorMessage code)) s
  | PositionThrew => set_gps denied (Some "Failed to get location"%string) s
  end.

Definition requestMotionPermission (r : MotionRequest) (s : State) : State :=
  match r with
  | NoDeviceMotion => set_motion denied (Some "Device motion not supported"%string) s
  | PermissionAnswer answer =>
      if String.eqb answer "granted"
      then set_motion granted None s
      else set_motion denied (Some "Motion permission denied"%string) s
  | NoPermissionFunction => set_motion granted None s
  | RequestThrew =>
      set_motion denied (Some "Failed to request motion permission"%string) s
  end.

(** The [watchPosition] callbacks. *)
Definition on_position (lat lon acc : Q) (now : Z) (s : State) : State :=
  {| gpsData := Some {| latitude := lat; longitude := lon;
                        accuracy := Some acc; gps_timestamp := now |};
     accelerometerData := accelerometerData s;
     permissions := permissions s;
     errors := errors s |}.

Definition on_position_error (code : Z) (s : State) : State :=
  {| gpsData := gpsData s;
     accelerometerData := accelerometerData s;
     permissions := permissions s;
     errors := {| gps_error := Some (getGeolocationErrorMessage code);
                  motion_error := motion_error (errors s) |} |}.

(** [v || 0] for [v : number | null]. *)
Definition axis_or_0 (v : option Q) : Q :=
  match v with Some q => q | None => inject_Z 0 end.

(** [handleMotion]: [g] is [event.accelerationIncludingGravity]. *)
Definition handleMotion (g : option (option Q * option Q * option Q)) (now : Z)
  (s : State) : State :=
  match g with
  | Some (gx, gy, gz) =>
      {| gpsData := gpsData s;
         accelerometerData :=
           Some {| x := axis_or_0 gx; y := axis_or_0 gy; z := axis_or_0 gz;
                   acc_timestamp := now |};
         permissions := permissions s;
         errors := errors s |}
  | None => s
  end.

End Sensors.

(* ------------------------------------------------------------------ *)
(** * The [SensorTransmitter] page: the transmission loop *)
(* ------------------------------------------------------------------ *)

Module Loop.
Import Sensors.

Inductive ConnectionStatus := connected | disconnected | connecting.

Record TransmissionStats := mkStats {
  totalTransmissions : Z;
  successfulTransmissions : Z;
  successRate : Q
}.

Inductive MessageType := msg_success | msg_error.

(** A request handed to the persistence routes through [apiRequest]. *)
Inductive ApiCall :=
| PostSensorData (body : Schema.InsertSensorData)
| PostTransmissionLog (esp32IpAddress : string) (success : bool)
    (errorMessage : option string).

(** A call of [sendDataToESP32] that is suspended at one of its [await]s,
    with the values its closure captured. *)
Inductive Phase :=
| AwaitSend                                   (* [esp32Client.sendData(data)] *)
| AwaitSensorPost (result : Client.SendResult) (* POST /api/sensor-data *)
| AwaitLogPost (result : Client.SendResult).   (* POST /api/transmission-logs *)

Record Attempt := mkAttempt {
  at_client : Client.ESP32Client;
  at_ip : string;
  at_gps : GPSData;
  at_accel : AccelerometerData;
  at_data : Wire.ESP32Data;
  at_phase : Phase
}.

(** The component state ([useState], [useSensors]) together with what the
    runtime holds for it: whether the interval timer is armed, the
    suspended calls, and the requests issued to the persistence routes. *)
Record State := mkState {
  esp32IpAddress : string;
  isTransmitting : bool;
  esp32Client : option Client.ESP32Client;
  connectionStatus : ConnectionStatus;
  lastTransmission : option Z;
  transmissionStats : TransmissionStats;
  statusMessage : option (MessageType * string);
  nextTransmission : option Z;
  sensors : Sensors.State;
  interval : bool;
  in_flight : list Attempt;
  api_calls : list ApiCall
}.

Definition default_ip : string := "192.168.1.50".

(** The state once the component is mounted: the [useState] initial values,
    and the client the first effect has created for the initial address. *)
Definition initial : State :=
  {| esp32IpAddress := default_ip;
     isTransmitting := false;
     esp32Client := Some (Client.mkESP32Client default_ip);
     connectionStatus := disconnected;
     lastTransmission := None;
     transmissionStats := {| totalTransmissions := 0;
                             successfulTransmissions := 0;
                             successRate := inject_Z 0 |};
     statusMessage := None;
     nextTransmission := None;
     sensors := Sensors.initial;
     interval := false;
     in_flight := [];
     api_calls := [] |}.

(** ** State setters *)

Definition setEsp32IpAddress (v : string) (s : State) : State :=
  mkState v (isTransmitting s) (esp32Client s) (connectionStatus s)
    (lastTransmission s) (transmissionStats s) (statusMessage s)
    (nextTransmission s) (sensors s) (interval s) (in_flight s) (api_calls s).

Definition setIsTransmitting (v : bool) (s : State) : State :=
  mkState (esp32IpAddress s) v (esp32Client s) (connectionStatus s)
    (lastTransmission s) (transmissionStats s) (statusMessage s)
    (nextTransmission s) (sensors s) (interval s) (in_flight s) (api_calls s).

Definition setEsp32Client (v : option Client.ESP32Client) (s : State) : State :=
  mkState (esp32IpAddress s) (isTransmitting s) v (connectionStatus s)
    (lastTransmission s) (transmissionStats s) (statusMessage s)
    (nextTransmission s) (sensors s) (interval s) (in_flight s) (api_calls s).

Definition setConnectionStatus (v : ConnectionStatus) (s : State) : State :=
  mkState (esp32IpAddress s) (isTransmitting s) (esp32Client s) v
    (lastTransmission s) (transmissionStats s) (statusMessage s)
    (nextTransmission s) (sensors s) (interval s) (in_flight s) (api_calls s).

Definition setLastTransmission (v : option Z) (s : State) : State :=
  mkState (esp32IpAddress s) (isTransmitting s) (esp32Client s)
    (connectionStatus s) v (transmissionStats s) (statusMessage s)
    (nextTransmission s) (sensors s) (interval s) (in_flight s) (api_calls s).

(** [setTransmissionStats(prev => f prev)] *)
Definition setTransmissionStats (f : TransmissionStats -> TransmissionStats)
  (s : State) : State :=
  mkState (esp32IpAddress s) (isTransmitting s) (esp32Client s)
    (connectionStatus s) (lastTransmission s) (f (transmissionStats s))
    (statusMessage s) (nextTransmission s) (sensors s) (interval s)
    (in_flight s) (api_calls s).

Definition setStatusMessage (v : option (MessageType * string)) (s : State) : State :=
  mkState (esp32IpAddress s) (isTransmitting s) (esp32Client s)
    (connectionStatus s) (lastTransmission s) (transmissionStats s) v
    (nextTransmission s) (sensors s) (interval s) (in_flight s) (api_calls s).

Definition setNextTransmission (v : option Z) (s : State) : State :=
  mkState (esp32IpAddress s) (isTransmitting s) (esp32Client s)
    (connectionStatus s) (lastTransmission s) (transmissionStats s)
    (statusMessage s) v (sensors s) (interval s) (in_flight s) (api_calls s).

Definition with_sensors (f : Sensors.State -> Sensors.State) (s : State) : State :=
  mkState (esp32IpAddress s) (isTransmitting s) (esp32Client s)
    (connectionStatus s) (lastTransmission s) (transmissionStats s)
    (statusMessage s) (nextTransmission s) (f (sensors s)) (interval s)
    (in_flight s) (api_calls s).

Definition set_interval (v : bool) (s : State) : State :=
  mkState (esp32IpAddress s) (isTransmitting s) (esp32Client s)
    (connectionStatus s) (lastTransmission s) (transmissionStats s)
    (statusMessage s) (nextTransmission s) (sensors s) v
    (in_flight s) (api_calls s).

Definition set_in_flight (v : list Attempt) (s : State) : State :=
  mkState (esp32IpAddress s) (isTransmitting s) (esp32Client s)
    (connectionStatus s) (lastTransmission s) (transmissionStats s)
    (statusMessage s) (nextTransmission s) (sensors s) (interval s)
    v (api_calls s).

Definition issue (c : ApiCall) (s : State) : State :=
  mkState (esp32IpAddress s) (isTransmitting s) (esp32Client s)
    (connectionStatus s) (lastTransmission s) (transmissionStats s)
    (statusMessage s) (nextTransmission s) (sensors s) (interval s)
    (in_flight s) (api_calls s ++ [c]).

(** [showStatusMessage]; the timer it starts clears the message later
    (event [MessageExpired] below). *)
Definition showStatusMessage (t : MessageType) (message : string) (s : State) : State :=
  setStatusMessage (Some (t, message)) s.

(** ** [sendDataToESP32], cut at its [await]s *)

(** From the call to [await esp32Client.sendData(data)]. *)
Definition sendDataToESP32 (now : Z) (s : State) : State :=
  match esp32Client s, gpsData (sensors s), accelerometerData (sensors s) with
  | Some client, Some g, Some a =>
      let data :=
        {| Wire.gps_latitude := latitude g;
           Wire.gps_longitude := longitude g;
           Wire.gps_accuracy := accuracy g;
           Wire.acc_x := x a; Wire.acc_y := y a; Wire.acc_z := z a;
           Wire.timestamp := now |} in
      let attempt :=
        {| at_client := client; at_ip := esp32IpAddress s;
           at_gps := g; at_accel := a; at_data := data;
           at_phase := AwaitSend |} in
      set_in_flight (in_flight s ++ [attempt]) (setConnectionStatus connecting s)
  | _, _, _ => s
  end.

Definition set_phase (p : Phase) (a : Attempt) : Attempt :=
  mkAttempt (at_client a) (at_ip a) (at_gps a) (at_accel a) (at_data a) p.

Fixpoint replace_nth {A : Type} (i : nat) (v : A) (l : list A) : list A :=
  match l, i with
  | [], _ => []
  | _ :: l', O => v :: l'
  | a :: l', S i' => a :: replace_nth i' v l'
  end.

Fixpoint remove_nth {A : Type} (i : nat) (l : list A) : list A :=
  match l, i with
  | [], _ => []
  | _ :: l', O => l'
  | a :: l', S i' => a :: remove_nth i' l'
  end.

Definition sensor_body (a : Attempt) : Schema.InsertSensorData :=
  {| Schema.isd_latitude := latitude (at_gps a);
     Schema.isd_longitude := longitude (at_gps a);
     Schema.isd_accuracy := accuracy (at_gps a);
     Schema.isd_accelerometerX := x (at_accel a);
     Schema.isd_accelerometerY := y (at_accel a);
     Schema.isd_accelerometerZ := z (at_accel a) |}.

(** From the result of [sendData] to [await apiRequest('POST',
    '/api/sensor-data', ...)].  [sendData] never rejects (both of its
    [catch] paths return), so the outer [catch] of [sendDataToESP32] is
    not reached. *)
Definition on_send_result (i : nat) (a : Attempt) (result : Client.SendResult)
  (now : Z) (s : State) : State :=
  let s1 :=
    if Client.success result
    then showStatusMessage msg_success "Data transmitted successfully"
           (setLastTransmission (Some now) (setConnectionStatus connected s))
    else showStatusMessage msg_error
           (JS.string_or (Client.error result) "Failed to transmit data")
           (setConnectionStatus disconnected s) in
  set_in_flight (replace_nth i (set_phase (AwaitSensorPost result) a) (in_flight s1))
    (issue (PostSensorData (sensor_body a)) s1).

(** The statistics update at the end of the outer [try]. *)
Definition update_stats (result : Client.SendResult) (prev : TransmissionStats)
  : TransmissionStats :=
  let one := if Client.success result then 1 else 0 in
  {| totalTransmissions := totalTransmissions prev + 1;
     successfulTransmissions := successfulTransmissions prev + one;
     successRate :=
       ((inject_Z (successfulTransmissions prev + one)
         / inject_Z (totalTransmissions prev + 1)) * inject_Z 100)%Q |}.

Definition finish (i : nat) (result : Client.SendResult) (s : State) : State :=
  set_in_flight (remove_nth i (in_flight s))
    (setTransmissionStats (update_stats result) s).

(** From the settlement of POST /api/sensor-data: on success the log is
    posted; a failure is caught and logged to the console, and the
    statistics update follows. *)
Definition on_sensor_post (i : nat) (a : Attempt) (result : Client.SendResult)
  (posted : bool) (s : State) : State :=
  if posted
  then set_in_flight (replace_nth i (set_phase (AwaitLogPost result) a) (in_flight s))
         (issue (PostTransmissionLog (at_ip a) (Client.success result)
                   (Client.error result)) s)
  else finish i result s.

(** ** The effects *)

(** The effect that owns the interval timer.  Its cleanup runs first, then
    its body; [now] is [Date.now()]. *)
Definition transmit_effect (now : Z) (s : State) : State :=
  let s1 := setNextTransmission None (set_interval false s) in
  match isTransmitting s1, gpsData (sensors s1), accelerometerData (sensors s1) with
  | true, Some _, Some _ =>
      setNextTransmission (Some (now + 2000))
        (set_interval true (sendDataToESP32 now s1))
  | _, _, _ => s1
  end.

(** The interval callback. *)
Definition interval_callback (now : Z) (s : State) : State :=
  setNextTransmission (Some (now + 2000)) (sendDataToESP32 now s).

Definition toggleTransmission (g : GPSRequest) (m : MotionRequest) (now : Z)
  (s : State) : State :=
  if negb (isTransmitting s) then
    (* [permissions] is the value of the render the handler belongs to *)
    let permissions := permissions (sensors s) in
    let s1 := if negb (is_granted (gps permissions))
              then with_sensors (requestGPSPermission g) s else s in
    let s2 := if negb (is_granted (motion permissions))
              then with_sensors (requestMotionPermission m) s1 else s1 in
    if is_granted (gps permissions) && is_granted (motion permissions)
    then transmit_effect now
           (showStatusMessage msg_success "Transmission started"
              (setIsTransmitting true s2))
    else showStatusMessage msg_error "Sensor permissions required" s2
  else
    transmit_effect now
      (showStatusMessage msg_success "Transmission stopped"
         (setConnectionStatus disconnected (setIsTransmitting false s))).

(** The sensor subscriptions exist while the loop runs and the permission
    is granted (the tracking effect and [startGPSTracking],
    [startAccelerometerTracking]). *)
Definition gps_tracking (s : State) : bool :=
  isTransmitting s && is_granted (gps (permissions (sensors s))).

Definition motion_tracking (s : State) : bool :=
  isTransmitting s && is_granted (motion (permissions (sensors s))).

(** ** Events *)

Inductive Event :=
| Toggle (g : GPSRequest) (m : MotionRequest) (now : Z)
    (* a click on the start/stop button, with the answers to the
       permission requests it may make *)
| IpChanged (ip : string) (now : Z)
| GPSPermissionSettled (g : GPSRequest)
| MotionPermissionSettled (m : MotionRequest)
    (* the permission checks [useSensors] starts when it mounts *)
| Position (lat lon acc : Q) (now : Z)
| PositionFailed (code : Z)
| DeviceMotion (g : option (option Q * option Q * option Q)) (now : Z)
| IntervalFired (now : Z)
| SendSettled (i : nat) (net : Client.Network) (now : Z)
| SensorPostSettled (i : nat) (posted : bool)
| LogPostSettled (i : nat) (posted : bool)
| MessageExpired.

Definition step (e : Event) (s : State) : State :=
  match e with
  | Toggle g m now => toggleTransmission g m now s
  | IpChanged ip now =>
      (* the render with the new address still holds the old client; the
         client effect replaces it and the timer effect runs again *)
      let s1 := transmit_effect now (setEsp32IpAddress ip s) in
      transmit_effect now (setEsp32Client (Some (Client.mkESP32Client ip)) s1)
  | GPSPermissionSettled g => with_sensors (requestGPSPermission g) s
  | MotionPermissionSettled m => with_sensors (requestMotionPermission m) s
  | Position lat lon acc now =>
      if gps_tracking s
      then transmit_effect now (with_sensors (on_position lat lon acc now) s)
      else s
  | PositionFailed code =>
      if gps_tracking s then with_sensors (on_position_error code) s else s
  | DeviceMotion g now =>
      if motion_tracking s
      then match g with
           | Some _ => transmit_effect now (with_sensors (handleMotion g now) s)
           | None => s
           end
      else s
  | IntervalFired now =>
      if interval s then interval_callback now s else s
  | SendSettled i net now =>
      match nth_error (in_flight s) i with
      | Some a =>
          match at_phase a with
          | AwaitSend =>
              on_send_result i a (Client.sendData net (at_client a) (at_data a)) now s
          | _ => s
          end
      | None => s
      end
  | SensorPostSettled i posted =>
      match nth_error (in_flight s) i with
      | Some a =>
          match at_phase a with
          | AwaitSensorPost result => on_sensor_post i a result posted s
          | _ => s
          end
      | None => s
      end
  | LogPostSettled i posted =>
      match nth_error (in_flight s) i with
      | Some a =>
          match at_phase a with
          | AwaitLogPost result => finish i result s
          | _ => s
          end
      | None => s
      end
  | MessageExpired => setStatusMessage None s
  end.

Definition run (events : list Event) (s : State) : State :=
  fold_left (fun st e => step e st) events s.

End Loop.

(* ------------------------------------------------------------------ *)
(** * Vocabulary of the specification *)
(* ------------------------------------------------------------------ *)

Module Spec.

(** [m'] holds every entry of [m], unchanged and in place, and possibly
    more after them. *)
Definition extends {V : Type} (m m' : JS.Map V) : Prop :=
  exists added, m' = m ++ added.

Definition same_kind (a b : Storage.Op) : bool :=
  match a, b with
  | Storage.OpCreateUser _, Storage.OpCreateUser _ => true
  | Storage.OpCreateSensorData _ _, Storage.OpCreateSensorData _ _ => true
  | Storage.OpCreateTransmissionLog _ _, Storage.OpCreateTransmissionLog _ _ => true
  | _, _ => false
  end.

(** [a] was captured no earlier than [b]. *)
Definition not_older (a b : Schema.SensorData) : Prop :=
  Schema.sd_timestamp b <= Schema.sd_timestamp a.

(** [r] is the [n] most recent of the samples [all], newest first: [r]
    opens a newest-first arrangement of [all] and has [n] elements, or all
    of them when fewer than [n] are stored. *)
Definition most_recent (n : Z) (all r : list Schema.SensorData) : Prop :=
  exists rest,
    Permutation (r ++ rest) all
    /\ StronglySorted not_older (r ++ rest)
    /\ Z.of_nat (List.length r) = Z.min (Z.max n 0) (Z.of_nat (List.length all)).

(** The success rate the specification prescribes for given counters. *)
Definition rate_of (successful total : Z) : Q :=
  if 0 <? total
  then ((inject_Z successful / inject_Z total) * inject_Z 100)%Q
  else inject_Z 0.

(** The relay did not report success: it replied [success = false], or the
    call to it faulted. *)
Definition relay_failed (r : Client.RelayOutcome) : Prop :=
  match r with
  | Client.RelayReplied s _ => s = false
  | Client.RelayFaulted => True
  end.

Definition is_toggle (e : Loop.Event) : bool :=
  match e with Loop.Toggle _ _ _ => true | _ => false end.

(** The keys of a map are [1, 2, ..., next - 1], in insertion order. *)
Definition dense (keys : list Z) (next : Z) : Prop :=
  keys = map Z.of_nat (seq 1 (List.length keys))
  /\ next = Z.of_nat (List.length keys) + 1.

(** The invariant of the store: in each map the ids are dense from 1 and
    the counter is the next free id. *)
Definition store_ok (st : Storage.MemStorage) : Prop :=
  dense (JS.map_keys (Storage.users st)) (Storage.currentUserId st)
  /\ dense (JS.map_keys (Storage.sensorData st)) (Storage.currentSensorDataId st)
  /\ dense (JS.map_keys (Storage.transmissionLogs st))
       (Storage.currentTransmissionLogId st).

(** The counters are consistent and the rate is the prescribed one. *)
Definition stats_ok (total successful : Z) (rate : Q) : Prop :=
  0 <= successful <= total /\ rate = rate_of successful total.

End Spec.

Import Spec.

(* ------------------------------------------------------------------ *)
(** * Concrete inputs used in the examples *)
(* ------------------------------------------------------------------ *)

Module Examples.

(** A create operation for a sample stored at time [t]. *)
Definition sample_at (t : Z) : Storage.Op :=
  Storage.OpCreateSensorData
    (Schema.mkInsertSensorData (inject_Z 0) (inject_Z 0) None
       (inject_Z 0) (inject_Z 0) (inject_Z 0)) t.

(** A network in which the device answers 200 to the direct call. *)
Definition device_ok : Client.Network :=
  {| Client.device := fun _ _ => Http.Responded 200;
     Client.relay := fun _ _ => Client.RelayFaulted |}.

(** Both permissions are granted, the loop is started, and a position and
    a motion reading arrive: the timer effect sends at once, so one attempt
    is in flight. *)
Definition start_and_send : list Loop.Event :=
  [ Loop.GPSPermissionSettled Sensors.PositionObtained;
    Loop.MotionPermissionSettled Sensors.NoPermissionFunction;
    Loop.Toggle Sensors.PositionObtained Sensors.NoPermissionFunction 0;
    Loop.Position (inject_Z 48) (inject_Z 2) (inject_Z 5) 10;
    Loop.DeviceMotion (Some (Some (inject_Z 0), Some (inject_Z 0), Some (inject_Z 9))) 20 ].

(** The click on the stop button. *)
Definition stop : Loop.Event :=
  Loop.Toggle Sensors.PositionObtained Sensors.NoPermissionFunction 30.

(** The attempt in flight completes: the send succeeds, and the two
    persistence requests settle. *)
Definition completion : list Loop.Event :=
  [ Loop.SendSettled 0 device_ok 40;
    Loop.SensorPostSettled 0 true;
    Loop.LogPostSettled 0 true ].

(** The mounted component after the location permission was denied. *)
Definition location_denied : Loop.State :=
  Loop.step (Loop.GPSPermissionSettled (Sensors.PositionError 1)) Loop.initial.

(** A network in which the direct call is rejected with an error whose
    message mentions CORS, and the relay cannot be reached. *)
Definition cors_blocked : Client.Network :=
  {| Client.device :=
       fun _ _ => Http.Rejected (Http.ErrorObject "CORS request did not succeed");
     Client.relay := fun _ _ => Client.RelayFaulted |}.

(** A device that answers 503 to the browser and 200 to the server, and
    one that answers 503 to both. *)
Definition busy : string -> Wire.ESP32Data -> Http.FetchOutcome :=
  fun _ _ => Http.Responded 503.

Definition fine : string -> Wire.ESP32Data -> Http.FetchOutcome :=
  fun _ _ => Http.Responded 200.

Definition client50 : Client.ESP32Client := Client.mkESP32Client "192.168.1.50".

(** The loop was started, has received both samples and was stopped
    again. *)
Definition stopped_with_samples : Loop.State :=
  Loop.step stop (Loop.run start_and_send Loop.initial).

Definition held_position : Sensors.GPSData :=
  Sensors.mkGPSData (inject_Z 48) (inject_Z 2) (Some (inject_Z 5)) 10.

Definition held_motion : Sensors.AccelerometerData :=
  Sensors.mkAccelerometerData (inject_Z 0) (inject_Z 0) (inject_Z 9) 20.

End Examples.

Import Examples.

(* ------------------------------------------------------------------ *)
(** * Further vocabulary: the store, the relay and the loop *)
(* ------------------------------------------------------------------ *)

Module Facts.

(** Every record of the map is stored under its own id. *)
Definition keyed {V : Type} (id_of : V -> Z) (m : JS.Map V) : Prop :=
  Forall (fun kv => id_of (snd kv) = fst kv) m.

Definition store_keyed (st : Storage.MemStorage) : Prop :=
  keyed Schema.u_id (Storage.users st)
  /\ keyed Schema.sd_id (Storage.sensorData st)
  /\ keyed Schema.tl_id (Storage.transmissionLogs st).

Definition is_log_op (op : Storage.Op) : bool :=
  match op with Storage.OpCreateTransmissionLog _ _ => true | _ => false end.

Definition is_successful_log_op (op : Storage.Op) : bool :=
  match op with
  | Storage.OpCreateTransmissionLog l _ => Schema.itl_success l
  | _ => false
  end.

(** [b] was logged no later than [a]. *)
Definition not_older_log (a b : Schema.TransmissionLog) : Prop :=
  Schema.tl_timestamp b <= Schema.tl_timestamp a.

(** The character [c] occurs in [s]. *)
Fixpoint has_char (c : ascii) (s : string) : bool :=
  match s with
  | EmptyString => false
  | String c' s' => Ascii.eqb c c' || has_char c s'
  end.

(** The relay request carries an address, not empty, and data. *)
Definition well_formed (req : Routes.RelayRequest) : Prop :=
  exists ip data,
    Routes.rq_ipAddress req = Some ip /\ ip <> EmptyString
    /\ Routes.rq_data req = Some data.

(** The number of stored samples. *)
Definition sample_count (st : Storage.MemStorage) : Z :=
  Z.of_nat (List.length (JS.map_values (Storage.sensorData st))).

(** The number of elements of [l] that satisfy [p]. *)
Definition count {A : Type} (p : A -> bool) (l : list A) : Z :=
  Z.of_nat (List.length (filter p l)).

Definition is_some {A : Type} (o : option A) : bool :=
  match o with Some _ => true | None => false end.

(** The attempt waits for the result of [esp32Client.sendData]. *)
Definition awaits_send (a : Loop.Attempt) : bool :=
  match Loop.at_phase a with Loop.AwaitSend => true | _ => false end.

(** The attempt has its result and waits for a persistence request. *)
Definition past_send (a : Loop.Attempt) : bool := negb (awaits_send a).

Definition awaits_log (a : Loop.Attempt) : bool :=
  match Loop.at_phase a with Loop.AwaitLogPost _ => true | _ => false end.

Definition is_sensor_post (c : Loop.ApiCall) : bool :=
  match c with Loop.PostSensorData _ => true | _ => false end.

Definition is_log_post (c : Loop.ApiCall) : bool :=
  match c with Loop.PostTransmissionLog _ _ _ => true | _ => false end.

(** The attempt [sendDataToESP32] starts at time [now] for the client
    [c], the address [ip] and the samples [g] and [a]. *)
Definition attempt_for (c : Client.ESP32Client) (ip : string)
  (g : Sensors.GPSData) (a : Sensors.AccelerometerData) (now : Z) : Loop.Attempt :=
  {| Loop.at_client := c; Loop.at_ip := ip; Loop.at_gps := g; Loop.at_accel := a;
     Loop.at_data :=
       {| Wire.gps_latitude := Sensors.latitude g;
          Wire.gps_longitude := Sensors.longitude g;
          Wire.gps_accuracy := Sensors.accuracy g;
          Wire.acc_x := Sensors.x a; Wire.acc_y := Sensors.y a;
          Wire.acc_z := Sensors.z a;
          Wire.timestamp := now |};
     Loop.at_phase := Loop.AwaitSend |}.

(** The events by which one attempt runs to its end: its send settles,
    the sample request settles, and the log request, made only when the
    sample request succeeded, settles. *)
Definition lifecycle (i : nat) (net : Client.Network) (now : Z)
  (sample_posted log_posted : bool) : list Loop.Event :=
  [Loop.SendSettled i net now; Loop.SensorPostSettled i sample_posted]
  ++ (if sample_posted then [Loop.LogPostSettled i log_posted] else []).

(** What holds of the sensor state at all times: no permission is ever
    [prompt]; a denied permission comes with an error message; a sample is
    held only for a sensor whose permission has been decided. *)
Definition sensors_ok (s : Sensors.State) : Prop :=
  Sensors.gps (Sensors.permissions s) <> Sensors.prompt
  /\ Sensors.motion (Sensors.permissions s) <> Sensors.prompt
  /\ (Sensors.gps (Sensors.permissions s) = Sensors.denied ->
      Sensors.gps_error (Sensors.errors s) <> None)
  /\ (Sensors.motion (Sensors.permissions s) = Sensors.denied ->
      Sensors.motion_error (Sensors.errors s) <> None)
  /\ (Sensors.gpsData s <> None ->
      Sensors.gps (Sensors.permissions s) <> Sensors.unknown)
  /\ (Sensors.accelerometerData s <> None ->
      Sensors.motion (Sensors.permissions s) <> Sensors.unknown).

(** The timer is armed exactly while the loop runs with both samples, and
    the time of the next transmission is shown exactly while it is armed. *)
Definition timer_ok (s : Loop.State) : Prop :=
  Loop.interval s
  = Loop.isTransmitting s
    && is_some (Sensors.gpsData (Loop.sensors s))
    && is_some (Sensors.accelerometerData (Loop.sensors s))
  /\ is_some (Loop.nextTransmission s) = Loop.interval s.

(** The requests to the persistence routes account for the attempts: one
    sample request per attempt that got its result, and no log request
    beyond the attempts counted or waiting for their log request. *)
Definition persistence_ok (s : Loop.State) : Prop :=
  count is_sensor_post (Loop.api_calls s)
  = Loop.totalTransmissions (Loop.transmissionStats s)
    + count past_send (Loop.in_flight s)
  /\ count is_log_post (Loop.api_calls s)
     <= Loop.totalTransmissions (Loop.transmissionStats s)
        + count awaits_log (Loop.in_flight s).

(** While the page shows "connecting", a send is awaited. *)
Definition connecting_ok (s : Loop.State) : Prop :=
  Loop.connectionStatus s = Loop.connecting ->
  existsb awaits_send (Loop.in_flight s) = true.

End Facts.

Import Facts.

(* ------------------------------------------------------------------ *)
(** * The built-ins on concrete inputs *)
(* ------------------------------------------------------------------ *)

Example parseInt_examples :
  JS.parseInt (Some "25"%string) = Some 25
  /\ JS.parseInt (Some "-1"%string) = Some (-1)
  /\ JS.parseInt (Some " 7up"%string) = Some 7
  /\ JS.parseInt (Some "0x10"%string) = Some 16
  /\ JS.parseInt (Some "0"%string) = Some 0
  /\ JS.parseInt (Some "abc"%string) = None
  /\ JS.parseInt (Some ""%string) = None
  /\ JS.parseInt None = None.
Proof. repeat split. Qed.

Example slice0_examples :
  JS.slice0 2 [1; 2; 3] = [1; 2]
  /\ JS.slice0 5 [1; 2; 3] = [1; 2; 3]
  /\ JS.slice0 0 [1; 2; 3] = []
  /\ JS.slice0 (-1) [1; 2; 3] = [1; 2]
  /\ JS.slice0 (-4) [1; 2; 3] = [].
Proof. repeat split. Qed.

(** Pairs sorted by descending first component: equal keys keep their
    order. *)
Example sort_is_stable :
  JS.sort (fun a b => fst b - fst a) [(1, 1); (3, 2); (1, 3); (3, 4); (2, 5)]
  = [(3, 2); (3, 4); (2, 5); (1, 1); (1, 3)].
Proof. reflexivity. Qed.

Example includes_examples :
  JS.includes "CORS" "blocked by CORS policy" = true
  /\ JS.includes "CORS" "Failed to fetch" = false
  /\ Wire.status_message 500 = "ESP32 responded with status 500"%string.
Proof. repeat split. Qed.

(* ------------------------------------------------------------------ *)
(** * Properties of the store *)
(* ------------------------------------------------------------------ *)

Section MapFacts.
Context {V : Type}.

Lemma map_set_fresh (k : Z) (v : V) (m : JS.Map V) :
  Forall (fun k' => k' < k) (JS.map_keys m) ->
  JS.map_set k v m = m ++ [(k, v)].
Proof.
  induction m as [|[k' v'] m IH]; intros H; simpl.
  - reflexivity.
  - inversion H as [|? ? Hk Hm]; subst. simpl in Hk.
    destruct (Z.eqb_spec k k') as [->|_]; [lia|].
    now rewrite (IH Hm).
Qed.

Lemma map_keys_app (m m' : JS.Map V) :
  JS.map_keys (m ++ m') = JS.map_keys m ++ JS.map_keys m'.
Proof. unfold JS.map_keys. apply map_app. Qed.

End MapFacts.

Lemma dense_below (keys : list Z) (next : Z) :
  dense keys next -> Forall (fun k => k < next) keys.
Proof.
  intros [Hk Hn]. rewrite Hk, Forall_forall. intros k Hin.
  apply in_map_iff in Hin. destruct Hin as [n [<- Hin]].
  apply in_seq in Hin. lia.
Qed.

Lemma dense_snoc (keys : list Z) (next : Z) :
  dense keys next -> dense (keys ++ [next]) (next + 1).
Proof.
  intros [Hk Hn]. split.
  - rewrite length_app. simpl. rewrite Nat.add_1_r, seq_S, map_app. simpl.
    rewrite <- Hk. f_equal. f_equal. lia.
  - rewrite length_app. simpl. lia.
Qed.

Lemma seq_sorted (n start : nat) :
  StronglySorted Z.lt (map Z.of_nat (seq start n)).
Proof.
  revert start. induction n as [|n IH]; intros start; simpl; constructor.
  - apply IH.
  - rewrite Forall_forall. intros k Hin. apply in_map_iff in Hin.
    destruct Hin as [m [<- Hin]]. apply in_seq in Hin. lia.
Qed.

Lemma dense_sorted (keys : list Z) (next : Z) :
  dense keys next -> StronglySorted Z.lt keys.
Proof. intros [Hk _]. rewrite Hk. apply seq_sorted. Qed.

Lemma store_ok_new : store_ok Storage.new.
Proof. repeat split. Qed.

Lemma store_ok_apply (op : Storage.Op) (st : Storage.MemStorage) :
  store_ok st -> store_ok (Storage.apply op st).
Proof.
  intros (Hu & Hs & Hl).
  destruct op; simpl; repeat split; simpl;
    try (apply Hu); try (apply Hs); try (apply Hl).
  all: try (rewrite map_set_fresh by (now apply dense_below);
            rewrite map_keys_app; simpl;
            first [ apply (dense_snoc _ _ Hu) | apply (dense_snoc _ _ Hs)
                  | apply (dense_snoc _ _ Hl) ]).
Qed.

Lemma store_ok_run (ops : list Storage.Op) (st : Storage.MemStorage) :
  store_ok st -> store_ok (Storage.run ops st).
Proof.
  revert st. induction ops as [|op ops IH]; intros st H; simpl.
  - exact H.
  - apply IH. now apply store_ok_apply.
Qed.

Lemma assigned_id_counter (op : Storage.Op) (st : Storage.MemStorage) :
  store_ok st ->
  Storage.assigned_id op st = Z.of_nat (List.length (Storage.keys_of_kind op st)) + 1.
Proof.
  intros (Hu & Hs & Hl). destruct op; simpl;
    [apply Hu | apply Hs | apply Hl].
Qed.

Lemma apply_keys (a op : Storage.Op) (st : Storage.MemStorage) :
  store_ok st ->
  Storage.keys_of_kind op (Storage.apply a st)
  = Storage.keys_of_kind op st
    ++ (if same_kind op a then [Storage.assigned_id a st] else []).
Proof.
  intros (Hu & Hs & Hl).
  destruct a, op; simpl; try (now rewrite app_nil_r).
  all: rewrite map_set_fresh by (now apply dense_below);
       now rewrite map_keys_app.
Qed.

Lemma run_count (ops : list Storage.Op) (op : Storage.Op) (st : Storage.MemStorage) :
  store_ok st ->
  List.length (Storage.keys_of_kind op (Storage.run ops st))
  = (List.length (Storage.keys_of_kind op st)
     + List.length (filter (same_kind op) ops))%nat.
Proof.
  revert st. induction ops as [|a ops IH]; intros st H; simpl.
  - lia.
  - rewrite IH by (now apply store_ok_apply).
    rewrite (apply_keys a op st H), length_app.
    destruct (same_kind op a); simpl; lia.
Qed.

Lemma same_kind_refl (op : Storage.Op) : same_kind op op = true.
Proof. now destruct op. Qed.

Lemma apply_extends (op : Storage.Op) (st : Storage.MemStorage) :
  store_ok st ->
  extends (Storage.users st) (Storage.users (Storage.apply op st))
  /\ extends (Storage.sensorData st) (Storage.sensorData (Storage.apply op st))
  /\ extends (Storage.transmissionLogs st)
       (Storage.transmissionLogs (Storage.apply op st)).
Proof.
  intros (Hu & Hs & Hl). unfold extends.
  destruct op; simpl; repeat split;
    try (exists []; now rewrite app_nil_r);
    rewrite map_set_fresh by (now apply dense_below); eauto.
Qed.

(** C10. Starting from the empty store, after any sequence of create
    operations the next create of a kind is given the id 1 plus the number
    of earlier creates of that kind (so ids start at 1 and grow by one);
    that id is larger than every id already stored for the kind; the ids of
    the kind stay strictly increasing in insertion order (hence pairwise
    distinct); and every map keeps all the entries it had, unchanged, the
    new record being appended. *)
Theorem create_assigns_fresh_increasing_ids
  (ops : list Storage.Op) (op : Storage.Op) :
  let st := Storage.run ops Storage.new in
  let id := Storage.assigned_id op st in
  id = 1 + Z.of_nat (List.length (filter (same_kind op) ops))
  /\ Forall (fun k => k < id) (Storage.keys_of_kind op st)
  /\ Storage.keys_of_kind op (Storage.apply op st)
     = Storage.keys_of_kind op st ++ [id]
  /\ StronglySorted Z.lt (Storage.keys_of_kind op (Storage.apply op st))
  /\ NoDup (Storage.keys_of_kind op (Storage.apply op st))
  /\ extends (Storage.users st) (Storage.users (Storage.apply op st))
  /\ extends (Storage.sensorData st) (Storage.sensorData (Storage.apply op st))
  /\ extends (Storage.transmissionLogs st)
       (Storage.transmissionLogs (Storage.apply op st)).
Proof.
  intros st id.
  assert (Hok : store_ok st) by (apply store_ok_run, store_ok_new).
  assert (Hok' : store_ok (Storage.apply op st)) by (now apply store_ok_apply).
  assert (Hsorted : StronglySorted Z.lt (Storage.keys_of_kind op (Storage.apply op st))).
  { destruct Hok' as (Hu & Hs & Hl).
    destruct op; simpl; eapply dense_sorted; eassumption. }
  split; [|split; [|split; [|split; [|split]]]].
  - unfold id. rewrite (assigned_id_counter op st Hok).
    unfold st. rewrite run_count by apply store_ok_new.
    replace (List.length (Storage.keys_of_kind op Storage.new)) with 0%nat
      by (now destruct op).
    rewrite Nat.add_0_l. lia.
  - unfold id. destruct Hok as (Hu & Hs & Hl).
    destruct op; simpl; now apply dense_below.
  - rewrite (apply_keys op op st Hok), same_kind_refl. reflexivity.
  - exact Hsorted.
  - clear - Hsorted.
    induction Hsorted as [|k l _ IH Hall]; constructor; [|exact IH].
    intros Hin. rewrite Forall_forall in Hall. specialize (Hall k Hin). lia.
  - now apply apply_extends.
Qed.

(** ** The stable sort *)

Section SortFacts.
Context {A : Type} (cmp : A -> A -> Z) (le : A -> A -> Prop).
Hypothesis cmp_le : forall a b, cmp a b <= 0 -> le a b.
Hypothesis cmp_gt : forall a b, 0 < cmp a b -> le b a.
Hypothesis le_trans : forall a b c, le a b -> le b c -> le a c.

Lemma insert_perm (a : A) (l : list A) :
  Permutation (JS.insert cmp a l) (a :: l).
Proof.
  induction l as [|b l IH]; simpl.
  - reflexivity.
  - destruct (cmp a b <=? 0).
    + reflexivity.
    + rewrite IH. apply perm_swap.
Qed.

Lemma sort_perm (l : list A) : Permutation (JS.sort cmp l) l.
Proof.
  induction l as [|a l IH]; simpl.
  - reflexivity.
  - rewrite insert_perm. now constructor.
Qed.

Lemma insert_sorted (a : A) (l : list A) :
  StronglySorted le l -> StronglySorted le (JS.insert cmp a l).
Proof.
  induction 1 as [|b l Hs IH Hb]; simpl.
  - repeat constructor.
  - destruct (Z.leb_spec (cmp a b) 0) as [Hab|Hab].
    + constructor; [now constructor|].
      constructor; [now apply cmp_le|].
      eapply Forall_impl; [|exact Hb]. intros c Hc.
      eapply le_trans; [apply cmp_le|]; eassumption.
    + constructor; [exact IH|].
      rewrite (insert_perm a l). constructor; [now apply cmp_gt | exact Hb].
Qed.

Lemma sort_sorted (l : list A) : StronglySorted le (JS.sort cmp l).
Proof.
  induction l as [|a l IH]; simpl.
  - constructor.
  - now apply insert_sorted.
Qed.

End SortFacts.

Lemma sort_length {A : Type} (cmp : A -> A -> Z) (l : list A) :
  List.length (JS.sort cmp l) = List.length l.
Proof. apply Permutation_length, sort_perm. Qed.

Lemma newest_first_sorted (l : list Schema.SensorData) :
  StronglySorted not_older (JS.sort Storage.newest_first_sd l).
Proof.
  apply sort_sorted; unfold Storage.newest_first_sd, not_older; intros; lia.
Qed.

Lemma slice0_nonneg {A : Type} (n : Z) (l : list A) :
  0 <= n ->
  JS.slice0 n l = firstn (Z.to_nat n) l
  /\ Z.of_nat (List.length (JS.slice0 n l)) = Z.min n (Z.of_nat (List.length l)).
Proof.
  intros Hn. unfold JS.slice0.
  destruct (Z.ltb_spec n 0) as [?|_]; [lia|].
  assert (E : firstn (Z.to_nat (Z.min n (Z.of_nat (List.length l)))) l
              = firstn (Z.to_nat n) l).
  { destruct (Z.le_ge_cases n (Z.of_nat (List.length l))) as [H|H].
    - now rewrite Z.min_l.
    - rewrite Z.min_r by exact H. rewrite Nat2Z.id, firstn_all.
      symmetry. apply firstn_all2. lia. }
  split; [exact E|].
  rewrite E, length_firstn. lia.
Qed.

(** C7, as amended. For every store and every limit [n >= 0],
    [getRecentSensorData n] returns the [n] most recent stored samples
    (all of them when fewer are stored), newest first; and the route
    GET /api/sensor-data returns exactly that list for every [limit]
    parameter that parses to a positive [n]. *)
Theorem recent_samples_newest_first (st : Storage.MemStorage) (n : Z) :
  0 <= n ->
  most_recent n (JS.map_values (Storage.sensorData st))
    (Storage.getRecentSensorData n st)
  /\ (forall q, JS.parseInt q = Some n -> 0 < n ->
        Routes.get_sensor_data q st = Storage.getRecentSensorData n st).
Proof.
  intros Hn. split.
  - unfold Storage.getRecentSensorData.
    set (all := JS.map_values (Storage.sensorData st)).
    set (sorted := JS.sort Storage.newest_first_sd all).
    destruct (slice0_nonneg n sorted Hn) as [E L].
    exists (skipn (Z.to_nat n) sorted). rewrite L, E, firstn_skipn.
    split; [apply sort_perm|]. split; [apply newest_first_sorted|].
    unfold sorted. rewrite sort_length. lia.
  - intros q Hq Hpos. unfold Routes.get_sensor_data, Routes.sensor_data_limit.
    rewrite Hq. simpl. destruct (Z.eqb_spec n 0); [lia|reflexivity].
Qed.

Lemma recent_samples_newest_first_witness :
  0 <= 1
  /\ most_recent 1
       (JS.map_values (Storage.sensorData
          (Storage.run [sample_at 10; sample_at 20] Storage.new)))
       (Storage.getRecentSensorData 1
          (Storage.run [sample_at 10; sample_at 20] Storage.new)).
Proof.
  split; [lia|].
  apply (recent_samples_newest_first
           (Storage.run [sample_at 10; sample_at 20] Storage.new) 1).
  lia.
Defined.

(** C7, as stated, fails. With two stored samples, the limit [-1] makes
    [slice(0, -1)] return one sample (all but the oldest), and the
    parameter [limit=0] makes the route fall back to the default limit and
    return both samples: neither result is "the N most recent". *)
Lemma recent_samples_counterexample :
  let st := Storage.run [sample_at 10; sample_at 20] Storage.new in
  let all := JS.map_values (Storage.sensorData st) in
  List.length (Storage.getRecentSensorData (-1) st) = 1%nat
  /\ ~ most_recent (-1) all (Storage.getRecentSensorData (-1) st)
  /\ List.length (Routes.get_sensor_data (Some "0"%string) st) = 2%nat
  /\ ~ most_recent 0 all (Routes.get_sensor_data (Some "0"%string) st).
Proof.
  cbv zeta. repeat split.
  - intros [rest (_ & _ & L)]. vm_compute in L. discriminate.
  - intros [rest (_ & _ & L)]. vm_compute in L. discriminate.
Qed.

(** C8. When the [limit] query parameter is absent, does not parse as an
    integer ([parseInt] gives [NaN]), or parses to 0, the route uses the
    limit 10. *)
Theorem sensor_data_default_limit (q : option string) (st : Storage.MemStorage) :
  q = None \/ JS.parseInt q = None \/ JS.parseInt q = Some 0 ->
  Routes.sensor_data_limit q = 10
  /\ Routes.get_sensor_data q st = Storage.getRecentSensorData 10 st.
Proof.
  intros H.
  assert (E : Routes.sensor_data_limit q = 10).
  { unfold Routes.sensor_data_limit.
    destruct H as [-> | [-> | ->]]; reflexivity. }
  split; [exact E|]. unfold Routes.get_sensor_data. now rewrite E.
Qed.

Lemma sensor_data_default_limit_witness :
  Routes.sensor_data_limit (Some "abc"%string) = 10
  /\ Routes.sensor_data_limit (Some "0"%string) = 10
  /\ Routes.sensor_data_limit None = 10.
Proof.
  split; [|split].
  - apply (sensor_data_default_limit (Some "abc"%string) Storage.new).
    right; left; reflexivity.
  - apply (sensor_data_default_limit (Some "0"%string) Storage.new).
    right; right; reflexivity.
  - apply (sensor_data_default_limit None Storage.new).
    left; reflexivity.
Defined.

(* ------------------------------------------------------------------ *)
(** * Properties of the transmission loop *)
(* ------------------------------------------------------------------ *)

Ltac break_match :=
  repeat match goal with
    | |- context [match ?d with _ => _ end] => destruct d eqn:?
    end.

Ltac loop_simpl :=
  cbn [Loop.esp32IpAddress Loop.isTransmitting Loop.esp32Client
       Loop.connectionStatus Loop.lastTransmission Loop.transmissionStats
       Loop.statusMessage Loop.nextTransmission Loop.sensors Loop.interval
       Loop.in_flight Loop.api_calls
       Loop.setEsp32IpAddress Loop.setIsTransmitting Loop.setEsp32Client
       Loop.setConnectionStatus Loop.setLastTransmission
       Loop.setTransmissionStats Loop.setStatusMessage
       Loop.setNextTransmission Loop.with_sensors Loop.set_interval
       Loop.set_in_flight Loop.issue Loop.showStatusMessage] in *.

Lemma stats_sendDataToESP32 (now : Z) (s : Loop.State) :
  Loop.transmissionStats (Loop.sendDataToESP32 now s) = Loop.transmissionStats s.
Proof. unfold Loop.sendDataToESP32. break_match; reflexivity. Qed.

Lemma stats_transmit_effect (now : Z) (s : Loop.State) :
  Loop.transmissionStats (Loop.transmit_effect now s) = Loop.transmissionStats s.
Proof.
  unfold Loop.transmit_effect. loop_simpl. break_match; loop_simpl; try reflexivity.
  now rewrite stats_sendDataToESP32.
Qed.

Lemma stats_toggle g m now (s : Loop.State) :
  Loop.transmissionStats (Loop.toggleTransmission g m now s)
  = Loop.transmissionStats s.
Proof.
  unfold Loop.toggleTransmission.
  break_match; loop_simpl; rewrite ?stats_transmit_effect; reflexivity.
Qed.

Lemma stats_step (e : Loop.Event) (s : Loop.State) :
  Loop.transmissionStats (Loop.step e s) = Loop.transmissionStats s
  \/ exists result,
       Loop.transmissionStats (Loop.step e s)
       = Loop.update_stats result (Loop.transmissionStats s).
Proof.
  destruct e; cbn [Loop.step].
  - left. apply stats_toggle.
  - left. rewrite stats_transmit_effect. loop_simpl.
    now rewrite stats_transmit_effect.
  - now left.
  - now left.
  - left. break_match; rewrite ?stats_transmit_effect; reflexivity.
  - left. break_match; reflexivity.
  - left. break_match; rewrite ?stats_transmit_effect; reflexivity.
  - left. unfold Loop.interval_callback.
    break_match; loop_simpl; rewrite ?stats_sendDataToESP32; reflexivity.
  - left. unfold Loop.on_send_result. break_match; reflexivity.
  - unfold Loop.on_sensor_post, Loop.finish.
    break_match; loop_simpl; eauto.
  - unfold Loop.finish. break_match; loop_simpl; eauto.
  - now left.
Qed.

Lemma update_stats_ok (result : Client.SendResult) (t : Loop.TransmissionStats) :
  stats_ok (Loop.totalTransmissions t) (Loop.successfulTransmissions t)
    (Loop.successRate t) ->
  let t' := Loop.update_stats result t in
  stats_ok (Loop.totalTransmissions t') (Loop.successfulTransmissions t')
    (Loop.successRate t').
Proof.
  intros [Hle Hrate]. simpl. split.
  - destruct (Client.success result); lia.
  - unfold rate_of.
    destruct (Z.ltb_spec 0 (Loop.totalTransmissions t + 1)); [reflexivity|lia].
Qed.

Lemma run_snoc (events : list Loop.Event) (e : Loop.Event) (s : Loop.State) :
  Loop.run (events ++ [e]) s = Loop.step e (Loop.run events s).
Proof. unfold Loop.run. now rewrite fold_left_app. Qed.

(** C1. After any sequence of events of the transmission loop (ticks,
    results of sends, sensor updates, starts and stops), the in-memory
    statistics satisfy [0 <= successful <= total] and [successRate] is
    [successful / total * 100] when [total > 0] and [0] when [total = 0];
    the statistics the store computes from its logs satisfy the same,
    whatever the stored logs. *)
Theorem statistics_invariant :
  (forall events : list Loop.Event,
     let t := Loop.transmissionStats (Loop.run events Loop.initial) in
     stats_ok (Loop.totalTransmissions t) (Loop.successfulTransmissions t)
       (Loop.successRate t))
  /\ (forall st : Storage.MemStorage,
        let t := Storage.getTransmissionStats st in
        stats_ok (Storage.totalTransmissions t)
          (Storage.successfulTransmissions t) (Storage.successRate t)).
Proof.
  split.
  - intros events. cbv zeta.
    induction events as [|e events IH] using rev_ind.
    + split; [simpl; lia | reflexivity].
    + rewrite run_snoc.
      destruct (stats_step e (Loop.run events Loop.initial)) as [-> | [r ->]].
      * exact IH.
      * now apply update_stats_ok.
  - intros st. cbv zeta. split; [|reflexivity]. simpl.
    pose proof (filter_length_le Schema.tl_success
                  (JS.map_values (Storage.transmissionLogs st))). lia.
Qed.

(** ** Ticks without a sample *)

Lemma sendDataToESP32_missing (now : Z) (s : Loop.State) :
  Sensors.gpsData (Loop.sensors s) = None
  \/ Sensors.accelerometerData (Loop.sensors s) = None ->
  Loop.sendDataToESP32 now s = s.
Proof.
  intros [H | H]; unfold Loop.sendDataToESP32; rewrite H;
    break_match; reflexivity.
Qed.

(** C6. A tick at which the location sample or the motion sample is
    missing does nothing: [sendDataToESP32] returns the state as it was, so
    the statistics, the connection state, the set of attempts and the
    requests issued to the persistence routes are unchanged, both for a
    tick of the interval timer and for the immediate send of the timer
    effect. *)
Theorem tick_without_sample_is_skipped (now : Z) (s : Loop.State) :
  Sensors.gpsData (Loop.sensors s) = None
  \/ Sensors.accelerometerData (Loop.sensors s) = None ->
  Loop.sendDataToESP32 now s = s
  /\ (let s' := Loop.step (Loop.IntervalFired now) s in
      Loop.transmissionStats s' = Loop.transmissionStats s
      /\ Loop.connectionStatus s' = Loop.connectionStatus s
      /\ Loop.lastTransmission s' = Loop.lastTransmission s
      /\ Loop.in_flight s' = Loop.in_flight s
      /\ Loop.api_calls s' = Loop.api_calls s)
  /\ (let s' := Loop.transmit_effect now s in
      Loop.transmissionStats s' = Loop.transmissionStats s
      /\ Loop.connectionStatus s' = Loop.connectionStatus s
      /\ Loop.lastTransmission s' = Loop.lastTransmission s
      /\ Loop.in_flight s' = Loop.in_flight s
      /\ Loop.api_calls s' = Loop.api_calls s).
Proof.
  intros H. pose proof (sendDataToESP32_missing now s H) as E.
  split; [exact E|]. split; cbv zeta.
  - cbn [Loop.step]. unfold Loop.interval_callback. rewrite E.
    destruct (Loop.interval s); repeat split.
  - unfold Loop.transmit_effect. loop_simpl.
    destruct (Loop.isTransmitting s); [|repeat split].
    destruct H as [H | H]; rewrite H; [repeat split|].
    destruct (Sensors.gpsData (Loop.sensors s)); repeat split.
Qed.

Lemma tick_without_sample_is_skipped_witness :
  Loop.sendDataToESP32 0 Loop.initial = Loop.initial.
Proof.
  apply (tick_without_sample_is_skipped 0 Loop.initial).
  left; reflexivity.
Defined.

(** ** Starting and stopping *)

Lemma sendDataToESP32_frame (now : Z) (s : Loop.State) :
  let s' := Loop.sendDataToESP32 now s in
  Loop.isTransmitting s' = Loop.isTransmitting s
  /\ Loop.sensors s' = Loop.sensors s
  /\ Loop.statusMessage s' = Loop.statusMessage s
  /\ Loop.interval s' = Loop.interval s
  /\ Loop.api_calls s' = Loop.api_calls s.
Proof.
  cbv zeta. unfold Loop.sendDataToESP32. break_match; repeat split.
Qed.

Lemma transmit_effect_frame (now : Z) (s : Loop.State) :
  let s' := Loop.transmit_effect now s in
  Loop.isTransmitting s' = Loop.isTransmitting s
  /\ Loop.sensors s' = Loop.sensors s
  /\ Loop.statusMessage s' = Loop.statusMessage s
  /\ Loop.api_calls s' = Loop.api_calls s.
Proof.
  cbv zeta. unfold Loop.transmit_effect. loop_simpl.
  break_match; loop_simpl; try (repeat split; congruence).
  all: match goal with
       | |- context [Loop.sendDataToESP32 ?n ?t] =>
           destruct (sendDataToESP32_frame n t) as (E1 & E2 & E3 & _ & E5)
       end.
  all: rewrite E1, E2, E3, E5; loop_simpl; repeat split; congruence.
Qed.

Lemma transmit_effect_idle (now : Z) (s : Loop.State) :
  Loop.isTransmitting s = false ->
  Loop.transmit_effect now s
  = Loop.setNextTransmission None (Loop.set_interval false s).
Proof.
  intros H. unfold Loop.transmit_effect. loop_simpl. now rewrite H.
Qed.

(** C3. A click on the start button while the loop is idle requests each
    permission that is not granted and decides on the permissions the
    component held at the click.  The loop starts only if both permissions
    are granted (then and afterwards); if either permission is denied after
    the click - in particular if the location permission was denied before
    it - the loop stays idle and the error "Sensor permissions required" is
    shown. *)
Theorem start_requires_permissions
  (g : Sensors.GPSRequest) (m : Sensors.MotionRequest) (now : Z) (s : Loop.State) :
  Loop.isTransmitting s = false ->
  let before := Sensors.permissions (Loop.sensors s) in
  let s' := Loop.toggleTransmission g m now s in
  let after := Sensors.permissions (Loop.sensors s') in
  let refused :=
    Loop.isTransmitting s' = false
    /\ Loop.statusMessage s'
       = Some (Loop.msg_error, "Sensor permissions required"%string) in
  (Sensors.gps before <> Sensors.granted ->
     Sensors.gps after
     = Sensors.gps (Sensors.permissions
                      (Sensors.requestGPSPermission g (Loop.sensors s))))
  /\ (Sensors.motion before <> Sensors.granted ->
        Sensors.motion after
        = Sensors.motion (Sensors.permissions
                            (Sensors.requestMotionPermission m (Loop.sensors s))))
  /\ (Loop.isTransmitting s' = true ->
        Sensors.gps before = Sensors.granted
        /\ Sensors.motion before = Sensors.granted
        /\ Sensors.gps after = Sensors.granted
        /\ Sensors.motion after = Sensors.granted)
  /\ (Sensors.gps after = Sensors.denied \/ Sensors.motion after = Sensors.denied ->
        refused)
  /\ (Sensors.gps before = Sensors.denied -> refused).
Proof.
  intros Hidle. cbv zeta. unfold Loop.toggleTransmission. rewrite Hidle.
  cbn [negb].
  destruct (Loop.sensors s) as [gd ad [pg pm] [eg em]] eqn:Hs.
  cbn [Sensors.permissions Sensors.gps Sensors.motion].
  destruct pg, pm; cbn [Sensors.is_granted negb andb];
    try destruct (transmit_effect_frame now
          (Loop.showStatusMessage Loop.msg_success "Transmission started"
             (Loop.setIsTransmitting true s))) as (E1 & E2 & E3 & _);
    try rewrite E1; try rewrite E2; loop_simpl; rewrite ?Hs;
    destruct g, m; cbn;
    repeat match goal with
      | |- context [String.eqb ?a ?b] => destruct (String.eqb a b)
      end; cbn;
    repeat split; try congruence; intros; try congruence;
    repeat match goal with
      | H : _ \/ _ |- _ => destruct H
      end; try congruence; try discriminate.
Qed.

Lemma start_requires_permissions_witness :
  Loop.isTransmitting location_denied = false
  /\ Loop.isTransmitting
       (Loop.toggleTransmission (Sensors.PositionError 1)
          Sensors.NoPermissionFunction 0 location_denied) = false
  /\ Loop.statusMessage
       (Loop.toggleTransmission (Sensors.PositionError 1)
          Sensors.NoPermissionFunction 0 location_denied)
     = Some (Loop.msg_error, "Sensor permissions required"%string).
Proof.
  split; [reflexivity|].
  destruct (start_requires_permissions (Sensors.PositionError 1)
              Sensors.NoPermissionFunction 0 location_denied eq_refl)
    as (_ & _ & _ & _ & H).
  apply H. reflexivity.
Defined.

(** The decision uses the permissions of the render the handler belongs
    to: when both requests made by the click are granted, the permissions
    are granted afterwards but this click still reports "Sensor
    permissions required"; the next click starts the loop. *)
Lemma grant_during_click_needs_second_click :
  let click := Loop.Toggle Sensors.PositionObtained Sensors.NoPermissionFunction 0 in
  let once := Loop.step click Loop.initial in
  let twice := Loop.step click once in
  Sensors.permissions (Loop.sensors once)
  = Sensors.mkSensorPermissions Sensors.granted Sensors.granted
  /\ Loop.isTransmitting once = false
  /\ Loop.statusMessage once
     = Some (Loop.msg_error, "Sensor permissions required"%string)
  /\ Loop.isTransmitting twice = true
  /\ Loop.statusMessage twice
     = Some (Loop.msg_success, "Transmission started"%string).
Proof. repeat split. Qed.

Lemma length_replace_nth {A : Type} (i : nat) (v : A) (l : list A) :
  List.length (Loop.replace_nth i v l) = List.length l.
Proof.
  revert i. induction l as [|a l IH]; intros [|i]; simpl; auto.
Qed.

Lemma length_remove_nth {A : Type} (i : nat) (l : list A) :
  (List.length (Loop.remove_nth i l) <= List.length l)%nat.
Proof.
  revert i. induction l as [|a l IH]; intros [|i]; simpl; auto.
  specialize (IH i). lia.
Qed.

(** While the loop is idle and the timer is cleared, an event other than a
    click on the button starts no attempt and re-arms no timer; without an
    attempt in flight it changes neither the connection state nor the
    statistics. *)
Lemma idle_step (e : Loop.Event) (s : Loop.State) :
  Loop.isTransmitting s = false ->
  Loop.interval s = false ->
  is_toggle e = false ->
  let s' := Loop.step e s in
  Loop.isTransmitting s' = false
  /\ Loop.interval s' = false
  /\ (List.length (Loop.in_flight s') <= List.length (Loop.in_flight s))%nat
  /\ (Loop.in_flight s = [] ->
        Loop.connectionStatus s' = Loop.connectionStatus s
        /\ Loop.transmissionStats s' = Loop.transmissionStats s).
Proof.
  intros Hidle Htimer Hev. cbv zeta.
  destruct e; try discriminate; cbn [Loop.step].
  - rewrite (transmit_effect_idle now _) by (now rewrite transmit_effect_idle).
    rewrite transmit_effect_idle by assumption. loop_simpl. auto.
  - loop_simpl. auto.
  - loop_simpl. auto.
  - unfold Loop.gps_tracking. rewrite Hidle. cbn [andb]. auto.
  - unfold Loop.gps_tracking. rewrite Hidle. cbn [andb]. auto.
  - unfold Loop.motion_tracking. rewrite Hidle. cbn [andb]. auto.
  - rewrite Htimer. auto.
  - destruct (nth_error (Loop.in_flight s) i) as [a|] eqn:Hi; [|auto].
    destruct (Loop.at_phase a); auto.
    unfold Loop.on_send_result.
    destruct (Client.success _); loop_simpl; rewrite length_replace_nth;
      (split; [assumption | split; [assumption | split; [lia|]]]);
      intros E; rewrite E in Hi; now destruct i.
  - destruct (nth_error (Loop.in_flight s) i) as [a|] eqn:Hi; [|auto].
    destruct (Loop.at_phase a); auto.
    unfold Loop.on_sensor_post, Loop.finish.
    destruct posted; loop_simpl; rewrite ?length_replace_nth;
      (split; [assumption | split; [assumption | split;
         [first [lia | apply length_remove_nth]|]]]);
      intros E; rewrite E in Hi; now destruct i.
  - destruct (nth_error (Loop.in_flight s) i) as [a|] eqn:Hi; [|auto].
    destruct (Loop.at_phase a); auto.
    unfold Loop.finish. loop_simpl.
    (split; [assumption | split; [assumption | split;
       [apply length_remove_nth|]]]);
      intros E; rewrite E in Hi; now destruct i.
  - loop_simpl. auto.
Qed.

Lemma idle_run (events : list Loop.Event) (s : Loop.State) :
  Loop.isTransmitting s = false ->
  Loop.interval s = false ->
  forallb (fun e => negb (is_toggle e)) events = true ->
  let s' := Loop.run events s in
  Loop.isTransmitting s' = false
  /\ Loop.interval s' = false
  /\ (List.length (Loop.in_flight s') <= List.length (Loop.in_flight s))%nat
  /\ (Loop.in_flight s = [] ->
        Loop.connectionStatus s' = Loop.connectionStatus s
        /\ Loop.transmissionStats s' = Loop.transmissionStats s).
Proof.
  revert s. induction events as [|e events IH]; intros s Hidle Htimer Hev; cbv zeta.
  - simpl. auto.
  - simpl in Hev. apply andb_true_iff in Hev. destruct Hev as [He Hev].
    apply negb_true_iff in He.
    destruct (idle_step e s Hidle Htimer He) as (H1 & H2 & H3 & H4).
    destruct (IH (Loop.step e s) H1 H2 Hev) as (K1 & K2 & K3 & K4).
    change (Loop.run (e :: events) s) with (Loop.run events (Loop.step e s)).
    split; [exact K1|]. split; [exact K2|]. split; [lia|].
    intros E. destruct (H4 E) as [E1 E2].
    assert (E' : Loop.in_flight (Loop.step e s) = []).
    { rewrite E in H3. simpl in H3.
      destruct (Loop.in_flight (Loop.step e s)); [reflexivity|simpl in H3; lia]. }
    destruct (K4 E') as [F1 F2]. split; congruence.
Qed.

Lemma stop_state g m now (s : Loop.State) :
  Loop.isTransmitting s = true ->
  Loop.step (Loop.Toggle g m now) s
  = Loop.setNextTransmission None
      (Loop.set_interval false
         (Loop.showStatusMessage Loop.msg_success "Transmission stopped"
            (Loop.setConnectionStatus Loop.disconnected
               (Loop.setIsTransmitting false s)))).
Proof.
  intros H. cbn [Loop.step]. unfold Loop.toggleTransmission.
  rewrite H. cbn [negb]. now rewrite transmit_effect_idle.
Qed.

(** C2, as amended. Stopping the running loop clears the timer, sets the
    connection state to disconnected and leaves the statistics and the
    attempts in flight as they are.  As long as the button is not clicked
    again, the loop stays idle, the timer stays cleared and no new attempt
    is started; if no attempt was in flight at the stop, the connection
    state and the statistics do not change any more.  An attempt still in
    flight is not discarded: when its send settles the connection state is
    set from its result, and when its log request settles the statistics
    are updated with it. *)
Theorem stop_halts_scheduling_only
  (s : Loop.State) (g : Sensors.GPSRequest) (m : Sensors.MotionRequest)
  (now : Z) (events : list Loop.Event) :
  Loop.isTransmitting s = true ->
  forallb (fun e => negb (is_toggle e)) events = true ->
  let stopped := Loop.step (Loop.Toggle g m now) s in
  let later := Loop.run events stopped in
  (Loop.isTransmitting stopped = false
   /\ Loop.interval stopped = false
   /\ Loop.connectionStatus stopped = Loop.disconnected
   /\ Loop.in_flight stopped = Loop.in_flight s
   /\ Loop.transmissionStats stopped = Loop.transmissionStats s)
  /\ (Loop.isTransmitting later = false
      /\ Loop.interval later = false
      /\ (List.length (Loop.in_flight later) <= List.length (Loop.in_flight s))%nat)
  /\ (Loop.in_flight s = [] ->
        Loop.connectionStatus later = Loop.disconnected
        /\ Loop.transmissionStats later = Loop.transmissionStats s)
  /\ (forall i a net t,
        nth_error (Loop.in_flight later) i = Some a ->
        Loop.at_phase a = Loop.AwaitSend ->
        Loop.connectionStatus (Loop.step (Loop.SendSettled i net t) later)
        = if Client.success (Client.sendData net (Loop.at_client a) (Loop.at_data a))
          then Loop.connected else Loop.disconnected)
  /\ (forall i a result posted,
        nth_error (Loop.in_flight later) i = Some a ->
        Loop.at_phase a = Loop.AwaitLogPost result ->
        Loop.transmissionStats (Loop.step (Loop.LogPostSettled i posted) later)
        = Loop.update_stats result (Loop.transmissionStats later)).
Proof.
  intros Hrun Hev stopped later.
  assert (Hstop : Loop.isTransmitting stopped = false
                  /\ Loop.interval stopped = false
                  /\ Loop.connectionStatus stopped = Loop.disconnected
                  /\ Loop.in_flight stopped = Loop.in_flight s
                  /\ Loop.transmissionStats stopped = Loop.transmissionStats s).
  { unfold stopped. rewrite (stop_state g m now s Hrun). repeat split. }
  destruct Hstop as (S1 & S2 & S3 & S4 & S5).
  destruct (idle_run events stopped S1 S2 Hev) as (L1 & L2 & L3 & L4).
  fold later in L1, L2, L3, L4.
  split; [repeat split; assumption|].
  split; [repeat split; try assumption; now rewrite <- S4|].
  split.
  - intros E. rewrite <- S4 in E. destruct (L4 E) as [E1 E2].
    split; congruence.
  - split.
    + intros i a net t Hi Hp. cbn [Loop.step]. rewrite Hi, Hp.
      unfold Loop.on_send_result.
      destruct (Client.success _); reflexivity.
    + intros i a result posted Hi Hp. cbn [Loop.step]. rewrite Hi, Hp.
      reflexivity.
Qed.

Lemma stop_halts_scheduling_only_witness :
  Loop.isTransmitting (Loop.run start_and_send Loop.initial) = true
  /\ Loop.connectionStatus (Loop.step stop (Loop.run start_and_send Loop.initial))
     = Loop.disconnected
  /\ Loop.interval (Loop.step stop (Loop.run start_and_send Loop.initial)) = false.
Proof.
  split; [reflexivity|].
  destruct (stop_halts_scheduling_only (Loop.run start_and_send Loop.initial)
              Sensors.PositionObtained Sensors.NoPermissionFunction 30 []
              eq_refl eq_refl) as ((_ & H2 & H3 & _) & _).
  split; [exact H3 | exact H2].
Defined.

(** C2, as stated, fails. One attempt is in flight when the loop is
    stopped; the stop leaves the loop idle, disconnected and with empty
    statistics.  When the attempt completes afterwards, the connection
    state becomes connected, the time of the last transmission is set and
    the statistics count one successful transmission, while the loop is
    still idle. *)
Lemma stop_does_not_discard_in_flight_result :
  let running := Loop.run start_and_send Loop.initial in
  let stopped := Loop.step stop running in
  let later := Loop.run completion stopped in
  (Loop.isTransmitting running = true
   /\ List.length (Loop.in_flight running) = 1%nat)
  /\ (Loop.isTransmitting stopped = false
      /\ Loop.connectionStatus stopped = Loop.disconnected
      /\ Loop.totalTransmissions (Loop.transmissionStats stopped) = 0)
  /\ (Loop.isTransmitting later = false
      /\ Loop.connectionStatus later = Loop.connected
      /\ Loop.lastTransmission later = Some 40
      /\ Loop.totalTransmissions (Loop.transmissionStats later) = 1
      /\ Loop.successfulTransmissions (Loop.transmissionStats later) = 1)
  /\ Loop.connectionStatus later <> Loop.connectionStatus stopped
  /\ Loop.transmissionStats later <> Loop.transmissionStats stopped.
Proof.
  cbv zeta. repeat split; try reflexivity.
  - vm_compute. discriminate.
  - vm_compute. discriminate.
Qed.

(* ------------------------------------------------------------------ *)
(** * Properties of the transmission client *)
(* ------------------------------------------------------------------ *)

(** The message the client reports when the direct call failed with [e]
    and the relay call faulted. *)
Lemma sendData_relay_faulted net c data e :
  Client.direct net c data = inr e ->
  Client.relay net (Client.ipAddress c) data = Client.RelayFaulted ->
  Client.sendData net c data
  = {| Client.success := false;
       Client.error :=
         Some (if JS.includes "CORS" (Http.message_or e "Failed to connect to ESP32")
               then Client.cors_message
               else Http.message_or e "Failed to connect to ESP32") |}.
Proof. intros Hd Hr. unfold Client.sendData. now rewrite Hd, Hr. Qed.

Lemma sendData_relay_replied net c data e s err :
  Client.direct net c data = inr e ->
  Client.relay net (Client.ipAddress c) data = Client.RelayReplied s err ->
  Client.sendData net c data = {| Client.success := s; Client.error := err |}.
Proof. intros Hd Hr. unfold Client.sendData. now rewrite Hd, Hr. Qed.

(** The relay route answers with a 2xx status only in its success branch,
    whose body has [success = true] and no [error]. *)
Lemma test_esp32_ok fetch req :
  Http.ok (Routes.response_status (Routes.test_esp32 fetch req)) = true ->
  Routes.test_esp32 fetch req
  = Routes.Result 200 true None (Some "ESP32 communication successful"%string).
Proof.
  unfold Routes.test_esp32.
  destruct (Routes.rq_ipAddress req) as [[|ch ip]|];
    destruct (Routes.rq_data req) as [data|]; simpl;
    try discriminate.
  destruct (fetch _ data) as [status|e]; simpl; [|discriminate].
  destruct (Http.ok status) eqn:Hok; simpl; [reflexivity|].
  now rewrite Hok.
Qed.

(** Through this repository's relay and [apiRequest], a relay failure is
    always a fault of the call, and a reply always reports success without
    an error. *)
Lemma relay_through_server browser_fetch server_fetch reachable ip data :
  let r := Client.relay
             (Client.through_server browser_fetch server_fetch reachable) ip data in
  r = Client.RelayFaulted \/ r = Client.RelayReplied true None.
Proof.
  cbv zeta. cbn [Client.relay Client.through_server].
  destruct reachable; [|now left]. unfold Client.apiRequest_json.
  destruct (Routes.test_esp32 server_fetch _) as [msg|status s e msg] eqn:Hr;
    [now left|].
  destruct (Http.ok status) eqn:Hok; [|now left].
  right. rewrite test_esp32_ok in Hr by (now rewrite Hr).
  now inversion Hr.
Qed.

(** C4, as amended. When the direct call fails and the relay does not
    report success, the result has [success = false].  Its error is the
    [error] field of the relay's reply when a reply was received (absent
    when the reply has none).  When the call to the relay faulted, it is
    the message of the direct-call error - or "Failed to connect to ESP32"
    when the value thrown is not an [Error] - replaced by the fixed CORS
    message when that message contains "CORS". *)
Theorem send_failure_error_message
  (net : Client.Network) (c : Client.ESP32Client) (data : Wire.ESP32Data)
  (e : Http.Thrown) :
  Client.direct net c data = inr e ->
  relay_failed (Client.relay net (Client.ipAddress c) data) ->
  let result := Client.sendData net c data in
  let direct_message := Http.message_or e "Failed to connect to ESP32" in
  Client.success result = false
  /\ Client.error result
     = match Client.relay net (Client.ipAddress c) data with
       | Client.RelayReplied _ relay_error => relay_error
       | Client.RelayFaulted =>
           Some (if JS.includes "CORS" direct_message
                 then Client.cors_message
                 else direct_message)
       end.
Proof.
  intros Hd Hfail. cbv zeta.
  destruct (Client.relay net (Client.ipAddress c) data) as [s err|] eqn:Hr.
  - simpl in Hfail. subst s.
    rewrite (sendData_relay_replied net c data e false err Hd Hr). now split.
  - rewrite (sendData_relay_faulted net c data e Hd Hr). now split.
Qed.

Lemma send_failure_error_message_witness :
  Client.success (Client.sendData cors_blocked client50 (Client.testData 0)) = false
  /\ Client.error (Client.sendData cors_blocked client50 (Client.testData 0))
     = Some Client.cors_message.
Proof.
  apply (send_failure_error_message cors_blocked client50 (Client.testData 0)
           (Http.ErrorObject "CORS request did not succeed")).
  - reflexivity.
  - exact I.
Defined.

(** C4, as stated, fails. The direct call is rejected with the message
    "CORS request did not succeed" and the relay reports no error (the
    call to it faults): the result carries the fixed CORS message, not the
    original direct-call message. *)
Lemma send_failure_keeps_direct_message_counterexample :
  Client.direct cors_blocked client50 (Client.testData 0)
  = inr (Http.ErrorObject "CORS request did not succeed")
  /\ Client.relay cors_blocked (Client.ipAddress client50) (Client.testData 0)
     = Client.RelayFaulted
  /\ Client.error (Client.sendData cors_blocked client50 (Client.testData 0))
     = Some "CORS error - ESP32 may not allow browser requests"%string
  /\ Client.error (Client.sendData cors_blocked client50 (Client.testData 0))
     <> Some "CORS request did not succeed"%string.
Proof.
  repeat split; try reflexivity. vm_compute. discriminate.
Qed.

(** C5. Through the relay of this repository, when the direct call fails
    and the relay reports success, the result has [success = true] and no
    error. *)
Theorem send_relay_success
  (browser_fetch server_fetch : string -> Wire.ESP32Data -> Http.FetchOutcome)
  (reachable : bool) (c : Client.ESP32Client) (data : Wire.ESP32Data)
  (e : Http.Thrown) (relay_error : option string) :
  let net := Client.through_server browser_fetch server_fetch reachable in
  Client.direct net c data = inr e ->
  Client.relay net (Client.ipAddress c) data
  = Client.RelayReplied true relay_error ->
  Client.sendData net c data
  = {| Client.success := true; Client.error := None |}.
Proof.
  intros net Hd Hr.
  rewrite (sendData_relay_replied net c data e true relay_error Hd Hr).
  destruct (relay_through_server browser_fetch server_fetch reachable
              (Client.ipAddress c) data) as [H | H];
    fold net in H; rewrite Hr in H; [discriminate|].
  now inversion H.
Qed.

Lemma send_relay_success_witness :
  Client.sendData (Client.through_server busy fine true) client50 (Client.testData 0)
  = {| Client.success := true; Client.error := None |}.
Proof.
  apply (send_relay_success busy fine true client50 (Client.testData 0)
           (Http.ErrorObject (Wire.status_message 503)) None);
    reflexivity.
Defined.

(** C9. [testConnection] returns what [sendData] returns, for the same
    client (hence the same address), on the sample with latitude 0,
    longitude 0, no accuracy, acceleration 0 on the three axes and the
    current time as time stamp. *)
Theorem testConnection_sends_zero_sample
  (net : Client.Network) (c : Client.ESP32Client) (now : Z) :
  Client.testConnection net c now
  = Client.sendData net c
      {| Wire.gps_latitude := inject_Z 0; Wire.gps_longitude := inject_Z 0;
         Wire.gps_accuracy := None;
         Wire.acc_x := inject_Z 0; Wire.acc_y := inject_Z 0;
         Wire.acc_z := inject_Z 0;
         Wire.timestamp := now |}.
Proof. unfold Client.testConnection, Client.testData. reflexivity. Qed.

(* ------------------------------------------------------------------ *)
(** * Further properties of the store *)
(* ------------------------------------------------------------------ *)

Section MapLookup.
Context {V : Type}.

Lemma map_get_snoc (k k' : Z) (v : V) (m : JS.Map V) :
  JS.map_get k (m ++ [(k', v)])
  = match JS.map_get k m with
    | Some found => Some found
    | None => if k =? k' then Some v else None
    end.
Proof.
  induction m as [|[k0 v0] m IH]; simpl.
  - reflexivity.
  - destruct (k =? k0); [reflexivity | exact IH].
Qed.

Lemma map_get_In (k : Z) (v : V) (m : JS.Map V) :
  JS.map_get k m = Some v -> In (k, v) m.
Proof.
  induction m as [|[k0 v0] m IH]; simpl; [discriminate|].
  destruct (Z.eqb_spec k k0) as [->|_].
  - intros H. inversion H. now left.
  - intros H. right. now apply IH.
Qed.

Lemma map_get_keys (k : Z) (m : JS.Map V) :
  JS.map_get k m <> None <-> In k (JS.map_keys m).
Proof.
  induction m as [|[k0 v0] m IH]; simpl.
  - split; [congruence | tauto].
  - destruct (Z.eqb_spec k k0) as [->|Hne].
    + split; [now left | discriminate].
    + rewrite IH. split; [now right | intros [E|H]; [congruence | exact H]].
Qed.

Lemma In_map_get (k : Z) (v : V) (m : JS.Map V) :
  NoDup (JS.map_keys m) -> In (k, v) m -> JS.map_get k m = Some v.
Proof.
  induction m as [|[k0 v0] m IH]; simpl; [tauto|].
  intros Hnd [E | Hin]; inversion Hnd as [|? ? Hk0 Hnd']; subst.
  - inversion E; subst. now rewrite Z.eqb_refl.
  - destruct (Z.eqb_spec k k0) as [->|_]; [|now apply IH].
    exfalso. apply Hk0. apply (in_map fst) in Hin. exact Hin.
Qed.

Lemma keyed_set (id_of : V -> Z) (k : Z) (v : V) (m : JS.Map V) :
  keyed id_of m -> id_of v = k -> keyed id_of (JS.map_set k v m).
Proof.
  intros Hm Hv. induction Hm as [|[k0 v0] m H0 Hm IH]; simpl.
  - now repeat constructor.
  - destruct (k =? k0); constructor; auto.
Qed.

Lemma keyed_ids (id_of : V -> Z) (m : JS.Map V) :
  keyed id_of m -> map id_of (JS.map_values m) = JS.map_keys m.
Proof.
  induction 1 as [|[k v] m H0 Hm IH]; simpl; [reflexivity|].
  simpl in H0. now rewrite H0, IH.
Qed.

End MapLookup.

Lemma dense_In (keys : list Z) (next k : Z) :
  dense keys next -> (In k keys <-> 1 <= k < next).
Proof.
  intros [Hk Hn]. rewrite Hk, in_map_iff. split.
  - intros [n [<- Hin]]. apply in_seq in Hin. lia.
  - intros H. exists (Z.to_nat k). split; [lia|]. apply in_seq. lia.
Qed.

Lemma sorted_lt_NoDup (l : list Z) : StronglySorted Z.lt l -> NoDup l.
Proof.
  induction 1 as [|k l _ IH Hall]; constructor; [|exact IH].
  intros Hin. rewrite Forall_forall in Hall. specialize (Hall k Hin). lia.
Qed.

Lemma dense_NoDup (keys : list Z) (next : Z) : dense keys next -> NoDup keys.
Proof. intros H. eapply sorted_lt_NoDup, dense_sorted, H. Qed.

Lemma store_keyed_apply (op : Storage.Op) (st : Storage.MemStorage) :
  store_keyed st -> store_keyed (Storage.apply op st).
Proof.
  intros (Hu & Hs & Hl).
  destruct op; simpl; repeat split; simpl; auto; now apply keyed_set.
Qed.

Lemma store_keyed_run (ops : list Storage.Op) (st : Storage.MemStorage) :
  store_keyed st -> store_keyed (Storage.run ops st).
Proof.
  revert st. induction ops as [|op ops IH]; intros st H; simpl.
  - exact H.
  - apply IH. now apply store_keyed_apply.
Qed.

Lemma store_keyed_new : store_keyed Storage.new.
Proof. repeat split; constructor. Qed.

(** X1. In a store built by create operations, [getUser id] finds a user
    exactly for the ids handed out so far, [1 <= id < currentUserId], and
    the user it finds carries that id. *)
Theorem getUser_finds_the_ids_handed_out (ops : list Storage.Op) (id : Z) :
  let st := Storage.run ops Storage.new in
  (forall u, Storage.getUser id st = Some u -> Schema.u_id u = id)
  /\ (Storage.getUser id st <> None <-> 1 <= id < Storage.currentUserId st).
Proof.
  intros st.
  assert (Hok : store_ok st) by (apply store_ok_run, store_ok_new).
  assert (Hk : store_keyed st) by (apply store_keyed_run, store_keyed_new).
  destruct Hok as (Hu & _). destruct Hk as (Ku & _). split.
  - intros u Hget. apply map_get_In in Hget.
    unfold keyed in Ku. rewrite Forall_forall in Ku.
    now apply (Ku (id, u)).
  - unfold Storage.getUser. rewrite map_get_keys. now apply dense_In.
Qed.

(** X2. Creating a user in such a store and looking the new id up returns
    the created user, who has the name and password given; the id was not
    in use before, and every other lookup is unchanged. *)
Theorem createUser_then_getUser (ops : list Storage.Op) (iu : Schema.InsertUser) :
  let st := Storage.run ops Storage.new in
  let st' := fst (Storage.createUser iu st) in
  let u := snd (Storage.createUser iu st) in
  Storage.getUser (Schema.u_id u) st' = Some u
  /\ Schema.u_username u = Schema.iu_username iu
  /\ Schema.u_password u = Schema.iu_password iu
  /\ Storage.getUser (Schema.u_id u) st = None
  /\ (forall id, id <> Schema.u_id u ->
        Storage.getUser id st' = Storage.getUser id st).
Proof.
  intros st st' u.
  assert (Hok : store_ok st) by (apply store_ok_run, store_ok_new).
  destruct Hok as (Hu & _).
  assert (Hnone : Storage.getUser (Storage.currentUserId st) st = None).
  { destruct (Storage.getUser (Storage.currentUserId st) st) eqn:E; [|reflexivity].
    assert (H : Storage.getUser (Storage.currentUserId st) st <> None) by congruence.
    unfold Storage.getUser in H. apply map_get_keys in H.
    apply (dense_In _ _ _ Hu) in H. lia. }
  unfold st', u, Storage.getUser in *. simpl.
  rewrite map_set_fresh by (now apply dense_below).
  repeat split.
  - rewrite map_get_snoc, Hnone. now rewrite Z.eqb_refl.
  - exact Hnone.
  - intros id Hne. rewrite map_get_snoc.
    destruct (JS.map_get id (Storage.users st)); [reflexivity|].
    destruct (Z.eqb_spec id (Storage.currentUserId st)); [contradiction|reflexivity].
Qed.

Lemma find_first {A : Type} (p : A -> bool) (l : list A) (a : A) :
  find p l = Some a ->
  exists before after,
    l = before ++ a :: after /\ p a = true /\ Forall (fun b => p b = false) before.
Proof.
  induction l as [|b l IH]; simpl; [discriminate|].
  destruct (p b) eqn:Hb.
  - intros H. inversion H; subst. exists [], l. now repeat split.
  - intros H. destruct (IH H) as (before & after & -> & Ha & Hall).
    exists (b :: before), after. repeat split; auto.
Qed.

(** X3. [getUserByUsername] in a store built by create operations: the
    user found has the name asked for and is the stored user of its id;
    among the stored users of that name it is the one created first (the
    store accepts several users of one name); and nothing is found exactly
    when no stored user has the name. *)
Theorem getUserByUsername_finds_the_first (ops : list Storage.Op) (name : string) :
  let st := Storage.run ops Storage.new in
  let stored := JS.map_values (Storage.users st) in
  (forall u, Storage.getUserByUsername name st = Some u ->
     Schema.u_username u = name
     /\ Storage.getUser (Schema.u_id u) st = Some u
     /\ (forall u', In u' stored -> Schema.u_username u' = name ->
           Schema.u_id u <= Schema.u_id u'))
  /\ (Storage.getUserByUsername name st = None <->
      forall u', In u' stored -> Schema.u_username u' <> name).
Proof.
  intros st stored.
  assert (Hok : store_ok st) by (apply store_ok_run, store_ok_new).
  assert (Hk : store_keyed st) by (apply store_keyed_run, store_keyed_new).
  destruct Hok as (Hu & _). destruct Hk as (Ku & _).
  pose proof (dense_sorted _ _ Hu) as Hsorted.
  rewrite <- (keyed_ids Schema.u_id _ Ku) in Hsorted. fold stored in Hsorted.
  unfold Storage.getUserByUsername. fold stored. split.
  - intros u Hfind.
    destruct (find_first _ _ _ Hfind) as (before & after & Hsplit & Hname & Hbefore).
    apply String.eqb_eq in Hname. split; [exact Hname|]. split.
    + unfold Storage.getUser. apply In_map_get; [now apply (dense_NoDup _ _ Hu)|].
      assert (Hin : In u stored) by (rewrite Hsplit; apply in_elt).
      unfold stored, JS.map_values in Hin. apply in_map_iff in Hin.
      destruct Hin as [[k v] [Hv Hin]]. simpl in Hv. subst v.
      unfold keyed in Ku. rewrite Forall_forall in Ku.
      specialize (Ku _ Hin). simpl in Ku. now rewrite Ku.
    + intros u' Hin Hname'. rewrite Hsplit in Hin, Hsorted.
      apply in_app_or in Hin. destruct Hin as [Hin | [<- | Hin]].
      * rewrite Forall_forall in Hbefore. specialize (Hbefore _ Hin).
        apply String.eqb_neq in Hbefore. contradiction.
      * lia.
      * rewrite map_app in Hsorted. simpl in Hsorted.
        assert (Hs : StronglySorted Z.lt
                       (Schema.u_id u :: map Schema.u_id after)).
        { clear - Hsorted. induction (map Schema.u_id before) as [|b l IH].
          - exact Hsorted.
          - apply IH. now inversion Hsorted. }
        inversion Hs as [|? ? _ Hall]; subst. rewrite Forall_forall in Hall.
        specialize (Hall (Schema.u_id u') (in_map _ _ _ Hin)). lia.
  - split.
    + intros Hnone u' Hin. apply String.eqb_neq.
      exact (find_none _ _ Hnone u' Hin).
    + intros Hall.
      destruct (find _ stored) as [u|] eqn:Hfind; [|reflexivity].
      apply find_some in Hfind. destruct Hfind as [Hin Hname].
      apply String.eqb_eq in Hname. now destruct (Hall u Hin).
Qed.

Lemma map_values_app {V : Type} (m m' : JS.Map V) :
  JS.map_values (m ++ m') = JS.map_values m ++ JS.map_values m'.
Proof. unfold JS.map_values. apply map_app. Qed.

Lemma newest_first_tl_sorted (l : list Schema.TransmissionLog) :
  StronglySorted not_older_log (JS.sort Storage.newest_first_tl l).
Proof.
  apply sort_sorted; unfold Storage.newest_first_tl, not_older_log; intros; lia.
Qed.

(** X4. [lastTransmission] of the statistics is absent exactly when no log
    is stored; otherwise it is the time stamp of a stored log and no
    stored log has a later one. *)
Theorem lastTransmission_is_the_latest (st : Storage.MemStorage) :
  let logs := JS.map_values (Storage.transmissionLogs st) in
  match Storage.lastTransmission (Storage.getTransmissionStats st) with
  | None => logs = []
  | Some t =>
      (exists l, In l logs /\ Schema.tl_timestamp l = t)
      /\ (forall l, In l logs -> Schema.tl_timestamp l <= t)
  end.
Proof.
  intros logs. unfold Storage.getTransmissionStats. fold logs. simpl.
  pose proof (sort_perm Storage.newest_first_tl logs) as Hperm.
  pose proof (newest_first_tl_sorted logs) as Hsorted.
  destruct logs as [|l0 logs']; [reflexivity|].
  set (all := l0 :: logs') in *.
  replace (0 <? Z.of_nat (List.length all)) with true
    by (symmetry; apply Z.ltb_lt; simpl; lia).
  destruct (JS.sort Storage.newest_first_tl all) as [|h rest] eqn:Hs.
  - apply Permutation_length in Hperm. discriminate.
  - simpl. split.
    + exists h. split; [|reflexivity].
      apply (Permutation_in h Hperm). now left.
    + intros l Hin. apply (Permutation_in l (Permutation_sym Hperm)) in Hin.
      destruct Hin as [<- | Hin]; [lia|].
      inversion Hsorted as [|? ? _ Hall]; subst. rewrite Forall_forall in Hall.
      exact (Hall l Hin).
Qed.

Lemma storage_run_snoc (ops : list Storage.Op) (op : Storage.Op)
  (st : Storage.MemStorage) :
  Storage.run (ops ++ [op]) st = Storage.apply op (Storage.run ops st).
Proof. unfold Storage.run. now rewrite fold_left_app. Qed.

Lemma apply_log_values (op : Storage.Op) (st : Storage.MemStorage) :
  store_ok st ->
  exists added,
    JS.map_values (Storage.transmissionLogs (Storage.apply op st))
    = JS.map_values (Storage.transmissionLogs st) ++ added
    /\ List.length added = (if is_log_op op then 1 else 0)%nat
    /\ List.length (filter Schema.tl_success added)
       = (if is_successful_log_op op then 1 else 0)%nat.
Proof.
  intros (Hu & Hs & Hl). destruct op as [u|d now|l now]; simpl.
  - exists []. now rewrite app_nil_r.
  - exists []. now rewrite app_nil_r.
  - rewrite map_set_fresh by (now apply dense_below).
    rewrite map_values_app. eexists. split; [reflexivity|]. simpl.
    split; [reflexivity|]. unfold Schema.tl_success. simpl.
    now destruct (Schema.itl_success l).
Qed.

(** X5. The statistics of a store built by create operations count the
    logs created: the total is the number of log creations, the number of
    successful ones is the number of log creations with [success = true],
    whatever other records were created in between. *)
Theorem stats_count_the_logs_created (ops : list Storage.Op) :
  let t := Storage.getTransmissionStats (Storage.run ops Storage.new) in
  Storage.totalTransmissions t = count is_log_op ops
  /\ Storage.successfulTransmissions t = count is_successful_log_op ops.
Proof.
  cbv zeta. unfold count. simpl.
  induction ops as [|op ops IH] using rev_ind.
  - now split.
  - rewrite storage_run_snoc.
    destruct (apply_log_values op (Storage.run ops Storage.new))
      as (added & -> & Hn & Hs); [apply store_ok_run, store_ok_new|].
    rewrite !filter_app, !length_app. simpl.
    rewrite Hn, Hs. destruct IH as [IH1 IH2].
    destruct (is_log_op op), (is_successful_log_op op); simpl; lia.
Qed.

(** ** Retrieval after a create *)

Lemma sort_snoc_newest (l : list Schema.SensorData) (x : Schema.SensorData) :
  Forall (fun s => Schema.sd_timestamp s < Schema.sd_timestamp x) l ->
  JS.sort Storage.newest_first_sd (l ++ [x])
  = x :: JS.sort Storage.newest_first_sd l.
Proof.
  induction 1 as [|a l Ha Hl IH]; simpl; [reflexivity|].
  rewrite IH. simpl. unfold Storage.newest_first_sd at 1.
  destruct (Z.leb_spec (Schema.sd_timestamp x - Schema.sd_timestamp a) 0);
    [lia | reflexivity].
Qed.

Lemma insert_snoc_oldest (a x : Schema.SensorData) (l : list Schema.SensorData) :
  Schema.sd_timestamp x <= Schema.sd_timestamp a ->
  JS.insert Storage.newest_first_sd a (l ++ [x])
  = JS.insert Storage.newest_first_sd a l ++ [x].
Proof.
  intros Hx. induction l as [|b l IH]; simpl.
  - unfold Storage.newest_first_sd.
    destruct (Z.leb_spec (Schema.sd_timestamp x - Schema.sd_timestamp a) 0);
      [reflexivity | lia].
  - destruct (Storage.newest_first_sd a b <=? 0); [reflexivity|].
    now rewrite IH.
Qed.

Lemma sort_snoc_oldest (l : list Schema.SensorData) (x : Schema.SensorData) :
  Forall (fun s => Schema.sd_timestamp x <= Schema.sd_timestamp s) l ->
  JS.sort Storage.newest_first_sd (l ++ [x])
  = JS.sort Storage.newest_first_sd l ++ [x].
Proof.
  induction 1 as [|a l Ha Hl IH]; simpl; [reflexivity|].
  rewrite IH. now apply insert_snoc_oldest.
Qed.

Lemma created_sample_values (d : Schema.InsertSensorData) (now : Z)
  (st : Storage.MemStorage) :
  store_ok st ->
  JS.map_values (Storage.sensorData (fst (Storage.createSensorData d now st)))
  = JS.map_values (Storage.sensorData st)
    ++ [snd (Storage.createSensorData d now st)].
Proof.
  intros (_ & Hs & _). simpl.
  rewrite map_set_fresh by (now apply dense_below).
  now rewrite map_values_app.
Qed.

(** X6. When a sample is created with a time stamp later than every
    stored one, retrieval with a limit [n >= 1] returns the new record
    first, followed by what retrieval with limit [n - 1] returned before. *)
Theorem new_sample_is_returned_first
  (ops : list Storage.Op) (d : Schema.InsertSensorData) (now n : Z) :
  let st := Storage.run ops Storage.new in
  Forall (fun s => Schema.sd_timestamp s < now)
    (JS.map_values (Storage.sensorData st)) ->
  1 <= n ->
  Storage.getRecentSensorData n (fst (Storage.createSensorData d now st))
  = snd (Storage.createSensorData d now st)
    :: Storage.getRecentSensorData (n - 1) st.
Proof.
  intros st Hnew Hn.
  assert (Hok : store_ok st) by (apply store_ok_run, store_ok_new).
  unfold Storage.getRecentSensorData.
  rewrite (created_sample_values d now st Hok).
  rewrite sort_snoc_newest by exact Hnew.
  destruct (slice0_nonneg n
              (snd (Storage.createSensorData d now st)
               :: JS.sort Storage.newest_first_sd
                    (JS.map_values (Storage.sensorData st)))) as [-> _]; [lia|].
  destruct (slice0_nonneg (n - 1)
              (JS.sort Storage.newest_first_sd
                 (JS.map_values (Storage.sensorData st)))) as [-> _]; [lia|].
  replace (Z.to_nat n) with (S (Z.to_nat (n - 1))) by lia.
  reflexivity.
Qed.

Lemma new_sample_is_returned_first_witness :
  Storage.getRecentSensorData 1
    (fst (Storage.createSensorData
            (Schema.mkInsertSensorData (inject_Z 1) (inject_Z 2) None
               (inject_Z 0) (inject_Z 0) (inject_Z 9)) 30
            (Storage.run [sample_at 10; sample_at 20] Storage.new)))
  = [snd (Storage.createSensorData
            (Schema.mkInsertSensorData (inject_Z 1) (inject_Z 2) None
               (inject_Z 0) (inject_Z 0) (inject_Z 9)) 30
            (Storage.run [sample_at 10; sample_at 20] Storage.new))].
Proof.
  apply (new_sample_is_returned_first [sample_at 10; sample_at 20]
           (Schema.mkInsertSensorData (inject_Z 1) (inject_Z 2) None
              (inject_Z 0) (inject_Z 0) (inject_Z 9)) 30 1).
  - repeat constructor.
  - lia.
Defined.

(** X7. When a sample is created with a time stamp that is not later than
    any stored one - in particular equal to the newest, two samples stored
    in the same millisecond - it is ranked last: retrieval with a limit up
    to the number of samples stored before returns what it returned
    before. *)
Theorem tied_sample_is_ranked_last
  (ops : list Storage.Op) (d : Schema.InsertSensorData) (now n : Z) :
  let st := Storage.run ops Storage.new in
  Forall (fun s => now <= Schema.sd_timestamp s)
    (JS.map_values (Storage.sensorData st)) ->
  0 <= n <= sample_count st ->
  Storage.getRecentSensorData n (fst (Storage.createSensorData d now st))
  = Storage.getRecentSensorData n st.
Proof.
  intros st Hold Hn.
  assert (Hok : store_ok st) by (apply store_ok_run, store_ok_new).
  unfold Storage.getRecentSensorData.
  rewrite (created_sample_values d now st Hok).
  rewrite sort_snoc_oldest by exact Hold.
  set (sorted := JS.sort Storage.newest_first_sd
                   (JS.map_values (Storage.sensorData st))).
  destruct (slice0_nonneg n (sorted ++ [snd (Storage.createSensorData d now st)]))
    as [-> _]; [lia|].
  destruct (slice0_nonneg n sorted) as [-> _]; [lia|].
  rewrite firstn_app.
  replace (Z.to_nat n - List.length sorted)%nat with 0%nat.
  - simpl. apply app_nil_r.
  - unfold sorted. rewrite sort_length. unfold sample_count in Hn. lia.
Qed.

Lemma tied_sample_is_ranked_last_witness :
  Storage.getRecentSensorData 1
    (fst (Storage.createSensorData
            (Schema.mkInsertSensorData (inject_Z 1) (inject_Z 2) None
               (inject_Z 0) (inject_Z 0) (inject_Z 9)) 20
            (Storage.run [sample_at 20] Storage.new)))
  = Storage.getRecentSensorData 1 (Storage.run [sample_at 20] Storage.new).
Proof.
  apply (tied_sample_is_ranked_last [sample_at 20]
           (Schema.mkInsertSensorData (inject_Z 1) (inject_Z 2) None
              (inject_Z 0) (inject_Z 0) (inject_Z 9)) 20 1).
  - repeat constructor. simpl. lia.
  - vm_compute. split; discriminate.
Defined.



Lemma firstn_NoDup {A : Type} (k : nat) (l : list A) :
  NoDup l -> NoDup (firstn k l).
Proof.
  intros H. rewrite <- (firstn_skipn k l) in H.
  now apply NoDup_app_remove_r in H.
Qed.

Lemma slice0_firstn {A : Type} (n : Z) (l : list A) :
  exists k, JS.slice0 n l = firstn k l.
Proof. unfold JS.slice0. eexists. reflexivity. Qed.

(** X9. Whatever the limit, positive, zero or negative, retrieval from a
    store built by create operations returns only stored records, each
    the record stored under its id, no record twice, and never more than
    are stored. *)
Theorem retrieval_returns_stored_records_once (ops : list Storage.Op) (n : Z) :
  let st := Storage.run ops Storage.new in
  let r := Storage.getRecentSensorData n st in
  (forall x, In x r ->
     JS.map_get (Schema.sd_id x) (Storage.sensorData st) = Some x)
  /\ NoDup (map Schema.sd_id r)
  /\ Z.of_nat (List.length r) <= sample_count st.
Proof.
  intros st r.
  assert (Hok : store_ok st) by (apply store_ok_run, store_ok_new).
  assert (Hk : store_keyed st) by (apply store_keyed_run, store_keyed_new).
  destruct Hok as (_ & Hs & _). destruct Hk as (_ & Ks & _).
  pose proof (dense_NoDup _ _ Hs) as Hnd.
  set (all := JS.map_values (Storage.sensorData st)).
  pose proof (sort_perm Storage.newest_first_sd all) as Hperm.
  unfold r, Storage.getRecentSensorData. fold all.
  destruct (slice0_firstn n (JS.sort Storage.newest_first_sd all)) as [k ->].
  split; [|split].
  - intros x Hin. apply In_map_get; [exact Hnd|].
    assert (Hall : In x all).
    { apply (Permutation_in x Hperm).
      rewrite <- (firstn_skipn k (JS.sort _ all)). apply in_or_app. now left. }
    unfold all, JS.map_values in Hall. apply in_map_iff in Hall.
    destruct Hall as [[key v] [Hv Hin']]. simpl in Hv. subst v.
    unfold keyed in Ks. rewrite Forall_forall in Ks.
    specialize (Ks _ Hin'). simpl in Ks. now rewrite Ks.
  - rewrite <- firstn_map. apply firstn_NoDup.
    apply (Permutation_NoDup (Permutation_sym (Permutation_map Schema.sd_id Hperm))).
    unfold all. now rewrite (keyed_ids Schema.sd_id _ Ks).
  - rewrite length_firstn, sort_length. unfold sample_count. fold all. lia.
Qed.

(** ** The retrieval route *)

(** X10. The limit the route GET /api/sensor-data uses is never 0.  For a
    positive limit the reply holds that many samples, or all of them when
    fewer are stored; for a negative limit [-k] it holds all but the [k]
    oldest. *)
Theorem route_limit_and_reply_size (q : option string) (st : Storage.MemStorage) :
  let limit := Routes.sensor_data_limit q in
  let size := Z.of_nat (List.length (Routes.get_sensor_data q st)) in
  limit <> 0
  /\ (0 < limit -> size = Z.min limit (sample_count st))
  /\ (limit < 0 -> size = Z.max 0 (sample_count st + limit)).
Proof.
  cbv zeta. unfold Routes.get_sensor_data, Storage.getRecentSensorData, sample_count.
  set (limit := Routes.sensor_data_limit q).
  set (all := JS.map_values (Storage.sensorData st)).
  split; [|split].
  - unfold limit, Routes.sensor_data_limit, JS.number_or.
    destruct (JS.parseInt q) as [v|]; [|discriminate].
    destruct (Z.eqb_spec v 0); [discriminate | assumption].
  - intros Hpos.
    destruct (slice0_nonneg limit (JS.sort Storage.newest_first_sd all)) as [_ L];
      [lia|].
    rewrite L, sort_length. reflexivity.
  - intros Hneg. unfold JS.slice0.
    destruct (Z.ltb_spec limit 0); [|lia].
    rewrite length_firstn, sort_length. lia.
Qed.

(* ------------------------------------------------------------------ *)
(** * Further properties of the relay and the client *)
(* ------------------------------------------------------------------ *)

(** X11. The relay route answers with a 2xx status exactly when the
    request carries a non-empty address and data and the device answers
    the forwarded call with a 2xx status; it answers 400, without regard
    to the device, exactly when the address or the data is missing. *)
Theorem relay_succeeds_iff_device_accepts
  (fetch : string -> Wire.ESP32Data -> Http.FetchOutcome)
  (req : Routes.RelayRequest) :
  (Http.ok (Routes.response_status (Routes.test_esp32 fetch req)) = true
   <-> exists ip data status,
         Routes.rq_ipAddress req = Some ip /\ ip <> EmptyString
         /\ Routes.rq_data req = Some data
         /\ fetch (Wire.esp32Url ip) data = Http.Responded status
         /\ Http.ok status = true)
  /\ (Routes.test_esp32 fetch req
      = Routes.BadRequest "IP address and data are required"
      <-> ~ well_formed req).
Proof.
  unfold Routes.test_esp32, well_formed.
  destruct (Routes.rq_ipAddress req) as [[|ch ip]|];
    destruct (Routes.rq_data req) as [data|]; simpl.
  all: try (split; split;
            [ discriminate
            | intros (? & ? & ? & H1 & H2 & H3 & _); congruence
            | intros _ (? & ? & H1 & H2 & H3); congruence
            | reflexivity ]).
  destruct (fetch _ data) as [status|e] eqn:Hf; simpl.
  - destruct (Http.ok status) eqn:Hok; simpl.
    + split; split.
      * intros _. exists (String ch ip), data, status. repeat split; congruence.
      * reflexivity.
      * discriminate.
      * intros H. exfalso. apply H. exists (String ch ip), data.
        repeat split; congruence.
    + split; split.
      * congruence.
      * intros (ip' & data' & status' & H1 & _ & H3 & H4 & H5).
        inversion H1; inversion H3; subst. rewrite Hf in H4. congruence.
      * discriminate.
      * intros H. exfalso. apply H. exists (String ch ip), data.
        repeat split; congruence.
  - split; split.
    + discriminate.
    + intros (ip' & data' & status' & H1 & _ & H3 & H4 & _).
      inversion H1; inversion H3; subst. rewrite Hf in H4. discriminate.
    + discriminate.
    + intros H. exfalso. apply H. exists (String ch ip), data.
      repeat split; congruence.
Qed.

(** X12. When the device answers the direct call with a 2xx status,
    [sendData] reports success without an error whatever the relay would
    do: the relay plays no part in the result. *)
Theorem direct_success_skips_the_relay
  (net : Client.Network) (c : Client.ESP32Client) (data : Wire.ESP32Data)
  (status : Z) :
  Client.device net (Wire.esp32Url (Client.ipAddress c)) data
  = Http.Responded status ->
  Http.ok status = true ->
  forall relay',
    Client.sendData (Client.mkNetwork (Client.device net) relay') c data
    = {| Client.success := true; Client.error := None |}.
Proof.
  intros Hd Hok relay'. unfold Client.sendData, Client.direct. simpl.
  now rewrite Hd, Hok.
Qed.

Lemma direct_success_skips_the_relay_witness :
  Client.sendData
    (Client.mkNetwork (Client.device device_ok)
       (fun _ _ => Client.RelayReplied false (Some "relay down"%string)))
    client50 (Client.testData 0)
  = {| Client.success := true; Client.error := None |}.
Proof.
  apply (direct_success_skips_the_relay device_ok client50 (Client.testData 0) 200);
    reflexivity.
Defined.

(** X13. [sendData] reports success exactly when the device answers the
    direct call with a 2xx status, or the direct call fails and the relay
    replies [success = true]. *)
Theorem sendData_success_iff
  (net : Client.Network) (c : Client.ESP32Client) (data : Wire.ESP32Data) :
  Client.success (Client.sendData net c data) = true
  <-> (exists status,
         Client.device net (Wire.esp32Url (Client.ipAddress c)) data
         = Http.Responded status /\ Http.ok status = true)
      \/ ((forall status,
             Client.device net (Wire.esp32Url (Client.ipAddress c)) data
             = Http.Responded status -> Http.ok status = false)
          /\ exists e,
               Client.relay net (Client.ipAddress c) data
               = Client.RelayReplied true e).
Proof.
  unfold Client.sendData, Client.direct.
  destruct (Client.device net _ data) as [status|e] eqn:Hd.
  - destruct (Http.ok status) eqn:Hok; simpl.
    + split; [intros _; left; eauto | reflexivity].
    + destruct (Client.relay net _ data) as [s err|] eqn:Hr; simpl.
      * split.
        -- intros ->. right. split; [|eauto].
           intros st' E. inversion E; subst. exact Hok.
        -- intros [(st' & E & Hok') | (_ & err' & E)]; [|congruence].
           inversion E; subst. congruence.
      * split; [discriminate|].
        intros [(st' & E & Hok') | (_ & err' & E)]; [|discriminate].
        inversion E; subst. congruence.
  - destruct (Client.relay net _ data) as [s err|] eqn:Hr; simpl.
    + split.
      * intros ->. right. split; [discriminate | eauto].
      * intros [(st' & E & _) | (_ & err' & E)]; congruence.
    + split; [discriminate|].
      intros [(st' & E & _) | (_ & err' & E)]; discriminate.
Qed.

(** ** The message for an HTTP error status *)

Lemma includes_needs_first_char (c : ascii) (rest s : string) :
  has_char c s = false -> JS.includes (String c rest) s = false.
Proof.
  induction s as [|c' s IH]; simpl.
  - reflexivity.
  - intros H. apply orb_false_iff in H. destruct H as [Hc Hs].
    destruct (Ascii.ascii_dec c c') as [E|_].
    + subst. now rewrite Ascii.eqb_refl in Hc.
    + now apply IH.
Qed.

Lemma has_char_app (c : ascii) (s t : string) :
  has_char c (s ++ t) = has_char c s || has_char c t.
Proof.
  induction s as [|c' s IH]; simpl; [reflexivity|].
  now rewrite IH, orb_assoc.
Qed.

Lemma digits_have_no_C (d : Decimal.uint) :
  has_char "C" (DecimalString.NilEmpty.string_of_uint d) = false.
Proof. induction d; simpl; auto. Qed.

Lemma status_message_has_no_C (status : Z) :
  has_char "C" (Wire.status_message status) = false.
Proof.
  unfold Wire.status_message, JS.string_of_Z. rewrite has_char_app.
  apply orb_false_iff. split; [reflexivity|].
  unfold DecimalString.NilZero.string_of_int, DecimalString.NilZero.string_of_uint.
  destruct (Z.to_int status) as [d|d]; destruct d; simpl;
    auto using digits_have_no_C.
Qed.

(** X14. When the device answers the direct call with a status outside
    200-299 and the call to the relay faults, the error reported is
    exactly "ESP32 responded with status N" for that status N; the CORS
    rewriting never applies to it. *)
Theorem http_error_status_is_reported
  (net : Client.Network) (c : Client.ESP32Client) (data : Wire.ESP32Data)
  (status : Z) :
  Client.device net (Wire.esp32Url (Client.ipAddress c)) data
  = Http.Responded status ->
  Http.ok status = false ->
  Client.relay net (Client.ipAddress c) data = Client.RelayFaulted ->
  Client.sendData net c data
  = {| Client.success := false;
       Client.error := Some (Wire.status_message status) |}.
Proof.
  intros Hd Hok Hr.
  assert (Hdirect : Client.direct net c data
                    = inr (Http.ErrorObject (Wire.status_message status))).
  { unfold Client.direct. now rewrite Hd, Hok. }
  rewrite (sendData_relay_faulted net c data _ Hdirect Hr). simpl.
  rewrite includes_needs_first_char by apply status_message_has_no_C.
  reflexivity.
Qed.

Lemma http_error_status_is_reported_witness :
  Client.sendData (Client.mkNetwork busy (fun _ _ => Client.RelayFaulted))
    client50 (Client.testData 0)
  = {| Client.success := false;
       Client.error := Some "ESP32 responded with status 503"%string |}.
Proof.
  apply (http_error_status_is_reported
           (Client.mkNetwork busy (fun _ _ => Client.RelayFaulted))
           client50 (Client.testData 0) 503); reflexivity.
Defined.

(* ------------------------------------------------------------------ *)
(** * Further properties of the sensors and the loop *)
(* ------------------------------------------------------------------ *)

(** ** Frames: what each part of [step] leaves alone *)

Lemma sendDataToESP32_keeps (now : Z) (s : Loop.State) :
  let s' := Loop.sendDataToESP32 now s in
  Loop.isTransmitting s' = Loop.isTransmitting s
  /\ Loop.sensors s' = Loop.sensors s
  /\ Loop.interval s' = Loop.interval s
  /\ Loop.nextTransmission s' = Loop.nextTransmission s
  /\ Loop.api_calls s' = Loop.api_calls s
  /\ Loop.transmissionStats s' = Loop.transmissionStats s
  /\ Loop.esp32Client s' = Loop.esp32Client s
  /\ Loop.esp32IpAddress s' = Loop.esp32IpAddress s.
Proof.
  cbv zeta. unfold Loop.sendDataToESP32.
  destruct (Loop.esp32Client s) eqn:Hc; [|repeat split; congruence].
  destruct (Sensors.gpsData (Loop.sensors s)) eqn:Hg; [|repeat split; congruence].
  destruct (Sensors.accelerometerData (Loop.sensors s)) eqn:Ha;
    repeat split; loop_simpl; congruence.
Qed.

(** What [sendDataToESP32] does when nothing is missing. *)
Lemma sendDataToESP32_starts (now : Z) (s : Loop.State) c g a :
  Loop.esp32Client s = Some c ->
  Sensors.gpsData (Loop.sensors s) = Some g ->
  Sensors.accelerometerData (Loop.sensors s) = Some a ->
  Loop.sendDataToESP32 now s
  = Loop.set_in_flight
      (Loop.in_flight s ++ [attempt_for c (Loop.esp32IpAddress s) g a now])
      (Loop.setConnectionStatus Loop.connecting s).
Proof.
  intros Hc Hg Ha. unfold Loop.sendDataToESP32. now rewrite Hc, Hg, Ha.
Qed.

Lemma sendDataToESP32_cases (now : Z) (s : Loop.State) :
  Loop.sendDataToESP32 now s = s
  \/ exists c g a,
       Loop.sendDataToESP32 now s
       = Loop.set_in_flight
           (Loop.in_flight s ++ [attempt_for c (Loop.esp32IpAddress s) g a now])
           (Loop.setConnectionStatus Loop.connecting s).
Proof.
  unfold Loop.sendDataToESP32.
  destruct (Loop.esp32Client s) as [c|]; [|now left].
  destruct (Sensors.gpsData (Loop.sensors s)) as [g|]; [|now left].
  destruct (Sensors.accelerometerData (Loop.sensors s)) as [a|]; [|now left].
  right. now exists c, g, a.
Qed.

(** What the timer effect does, by cases. *)
Lemma transmit_effect_cases (now : Z) (s : Loop.State) :
  let cleared := Loop.setNextTransmission None (Loop.set_interval false s) in
  (Loop.isTransmitting s
   && is_some (Sensors.gpsData (Loop.sensors s))
   && is_some (Sensors.accelerometerData (Loop.sensors s)) = true
   /\ Loop.transmit_effect now s
      = Loop.setNextTransmission (Some (now + 2000))
          (Loop.set_interval true (Loop.sendDataToESP32 now cleared)))
  \/ (Loop.isTransmitting s
      && is_some (Sensors.gpsData (Loop.sensors s))
      && is_some (Sensors.accelerometerData (Loop.sensors s)) = false
      /\ Loop.transmit_effect now s = cleared).
Proof.
  cbv zeta. unfold Loop.transmit_effect. loop_simpl.
  destruct (Loop.isTransmitting s); [|now right].
  destruct (Sensors.gpsData (Loop.sensors s)); [|now right].
  destruct (Sensors.accelerometerData (Loop.sensors s)); [now left | now right].
Qed.

Lemma transmit_effect_keeps (now : Z) (s : Loop.State) :
  let s' := Loop.transmit_effect now s in
  Loop.isTransmitting s' = Loop.isTransmitting s
  /\ Loop.sensors s' = Loop.sensors s
  /\ Loop.api_calls s' = Loop.api_calls s
  /\ Loop.transmissionStats s' = Loop.transmissionStats s
  /\ Loop.esp32Client s' = Loop.esp32Client s
  /\ Loop.esp32IpAddress s' = Loop.esp32IpAddress s.
Proof.
  cbv zeta.
  destruct (transmit_effect_cases now s) as [[_ ->] | [_ ->]]; loop_simpl.
  - destruct (sendDataToESP32_keeps now
                (Loop.setNextTransmission None (Loop.set_interval false s)))
      as (E1 & E2 & _ & _ & E5 & E6 & E7 & E8).
    rewrite E1, E2, E5, E6, E7, E8. repeat split.
  - repeat split.
Qed.

Lemma transmit_effect_timer (now : Z) (s : Loop.State) :
  timer_ok (Loop.transmit_effect now s).
Proof.
  destruct (transmit_effect_keeps now s) as (E1 & E2 & _).
  unfold timer_ok. rewrite E1, E2.
  destruct (transmit_effect_cases now s) as [[H ->] | [H ->]];
    loop_simpl; rewrite H; split; reflexivity.
Qed.

(** ** The sensor state *)

Lemma requestGPSPermission_ok g (s : Sensors.State) :
  sensors_ok s -> sensors_ok (Sensors.requestGPSPermission g s).
Proof.
  intros (H1 & H2 & H3 & H4 & H5 & H6).
  destruct g; unfold sensors_ok; simpl; repeat split; auto; congruence.
Qed.

Lemma requestMotionPermission_ok m (s : Sensors.State) :
  sensors_ok s -> sensors_ok (Sensors.requestMotionPermission m s).
Proof.
  intros (H1 & H2 & H3 & H4 & H5 & H6).
  destruct m; unfold sensors_ok; simpl;
    try destruct (String.eqb _ _); simpl; repeat split; auto; congruence.
Qed.

Lemma sensors_step_ok (e : Loop.Event) (s : Loop.State) :
  sensors_ok (Loop.sensors s) -> sensors_ok (Loop.sensors (Loop.step e s)).
Proof.
  intros H. destruct e; cbn [Loop.step].
  - unfold Loop.toggleTransmission.
    destruct (negb (Loop.isTransmitting s)).
    + destruct (Sensors.is_granted (Sensors.gps _)),
               (Sensors.is_granted (Sensors.motion _));
        cbn [negb andb];
        try (destruct (transmit_effect_keeps now
               (Loop.showStatusMessage Loop.msg_success "Transmission started"
                  (Loop.setIsTransmitting true s))) as (_ & -> & _));
        loop_simpl;
        auto using requestGPSPermission_ok, requestMotionPermission_ok.
    + destruct (transmit_effect_keeps now
               (Loop.showStatusMessage Loop.msg_success "Transmission stopped"
                  (Loop.setConnectionStatus Loop.disconnected
                     (Loop.setIsTransmitting false s)))) as (_ & -> & _).
      exact H.
  - destruct (transmit_effect_keeps now
                (Loop.setEsp32Client (Some (Client.mkESP32Client ip))
                   (Loop.transmit_effect now (Loop.setEsp32IpAddress ip s))))
      as (_ & -> & _). loop_simpl.
    destruct (transmit_effect_keeps now (Loop.setEsp32IpAddress ip s))
      as (_ & -> & _). exact H.
  - loop_simpl. now apply requestGPSPermission_ok.
  - loop_simpl. now apply requestMotionPermission_ok.
  - unfold Loop.gps_tracking.
    destruct (Loop.isTransmitting s); [|exact H]. cbn [andb].
    destruct (Sensors.gps (Sensors.permissions (Loop.sensors s))) eqn:Hg;
      cbn [Sensors.is_granted]; try exact H.
    destruct (transmit_effect_keeps now
                (Loop.with_sensors (Sensors.on_position lat lon acc now) s))
      as (_ & -> & _). loop_simpl.
    destruct H as (H1 & H2 & H3 & H4 & H5 & H6).
    unfold sensors_ok; simpl; rewrite Hg; repeat split; auto; congruence.
  - unfold Loop.gps_tracking.
    destruct (Loop.isTransmitting s); [|exact H]. cbn [andb].
    destruct (Sensors.gps (Sensors.permissions (Loop.sensors s))) eqn:Hg;
      cbn [Sensors.is_granted]; try exact H.
    loop_simpl. destruct H as (H1 & H2 & H3 & H4 & H5 & H6).
    unfold sensors_ok; simpl; rewrite Hg; repeat split; auto; congruence.
  - unfold Loop.motion_tracking.
    destruct (Loop.isTransmitting s); [|exact H]. cbn [andb].
    destruct (Sensors.motion (Sensors.permissions (Loop.sensors s))) eqn:Hm;
      cbn [Sensors.is_granted]; try exact H.
    destruct g as [[[gx gy] gz]|]; [|exact H].
    destruct (transmit_effect_keeps now
                (Loop.with_sensors
                   (Sensors.handleMotion (Some (gx, gy, gz)) now) s))
      as (_ & -> & _). loop_simpl.
    destruct H as (H1 & H2 & H3 & H4 & H5 & H6).
    unfold sensors_ok; simpl; rewrite Hm; repeat split; auto; congruence.
  - destruct (Loop.interval s); [|exact H]. unfold Loop.interval_callback.
    loop_simpl.
    destruct (sendDataToESP32_keeps now s) as (_ & -> & _). exact H.
  - destruct (nth_error (Loop.in_flight s) i) as [a|]; [|exact H].
    destruct (Loop.at_phase a); try exact H.
    unfold Loop.on_send_result. destruct (Client.success _); exact H.
  - destruct (nth_error (Loop.in_flight s) i) as [a|]; [|exact H].
    destruct (Loop.at_phase a); try exact H.
    unfold Loop.on_sensor_post. destruct posted; exact H.
  - destruct (nth_error (Loop.in_flight s) i) as [a|]; [|exact H].
    destruct (Loop.at_phase a); exact H.
  - exact H.
Qed.

(** X15. After any sequence of events of the page, no sensor permission is
    in the state [prompt] (the code never assigns it); a denied permission
    always comes with an error message; and a sample is held only for a
    sensor whose permission is no longer [unknown]. *)
Theorem sensor_state_invariant (events : list Loop.Event) :
  sensors_ok (Loop.sensors (Loop.run events Loop.initial)).
Proof.
  induction events as [|e events IH] using rev_ind.
  - unfold sensors_ok. simpl. repeat split; congruence.
  - rewrite run_snoc. now apply sensors_step_ok.
Qed.

(** ** The timer *)

Lemma requestGPSPermission_keeps_data g (s : Sensors.State) :
  Sensors.gpsData (Sensors.requestGPSPermission g s) = Sensors.gpsData s
  /\ Sensors.accelerometerData (Sensors.requestGPSPermission g s)
     = Sensors.accelerometerData s.
Proof. destruct g; split; reflexivity. Qed.

Lemma requestMotionPermission_keeps_data m (s : Sensors.State) :
  Sensors.gpsData (Sensors.requestMotionPermission m s) = Sensors.gpsData s
  /\ Sensors.accelerometerData (Sensors.requestMotionPermission m s)
     = Sensors.accelerometerData s.
Proof.
  destruct m; simpl; try destruct (String.eqb _ _); split; reflexivity.
Qed.

Lemma timer_step_ok (e : Loop.Event) (s : Loop.State) :
  timer_ok s -> timer_ok (Loop.step e s).
Proof.
  intros H. destruct e; cbn [Loop.step].
  - unfold Loop.toggleTransmission.
    destruct (negb (Loop.isTransmitting s)); [|apply transmit_effect_timer].
    destruct (Sensors.is_granted (Sensors.gps _)),
             (Sensors.is_granted (Sensors.motion _));
      cbn [negb andb]; try apply transmit_effect_timer;
      unfold timer_ok in *; loop_simpl;
      repeat match goal with
        | |- context [Sensors.requestMotionPermission ?m ?x] =>
            destruct (requestMotionPermission_keeps_data m x) as [-> ->]
        | |- context [Sensors.requestGPSPermission ?g ?x] =>
            destruct (requestGPSPermission_keeps_data g x) as [-> ->]
        end; exact H.
  - apply transmit_effect_timer.
  - unfold timer_ok in *. loop_simpl.
    destruct (requestGPSPermission_keeps_data g (Loop.sensors s)) as [-> ->].
    exact H.
  - unfold timer_ok in *. loop_simpl.
    destruct (requestMotionPermission_keeps_data m (Loop.sensors s)) as [-> ->].
    exact H.
  - destruct (Loop.gps_tracking s); [apply transmit_effect_timer | exact H].
  - destruct (Loop.gps_tracking s); exact H.
  - destruct (Loop.motion_tracking s); [|exact H].
    destruct g; [apply transmit_effect_timer | exact H].
  - destruct (Loop.interval s) eqn:Hi; [|exact H].
    unfold Loop.interval_callback, timer_ok in *. loop_simpl.
    destruct (sendDataToESP32_keeps now s) as (-> & -> & -> & _).
    destruct H as [H1 _]. rewrite Hi in *. split; [exact H1 | reflexivity].
  - destruct (nth_error (Loop.in_flight s) i) as [a|]; [|exact H].
    destruct (Loop.at_phase a); try exact H.
    unfold Loop.on_send_result. destruct (Client.success _); exact H.
  - destruct (nth_error (Loop.in_flight s) i) as [a|]; [|exact H].
    destruct (Loop.at_phase a); try exact H.
    unfold Loop.on_sensor_post. destruct posted; exact H.
  - destruct (nth_error (Loop.in_flight s) i) as [a|]; [|exact H].
    destruct (Loop.at_phase a); exact H.
  - exact H.
Qed.

(** X16. After any sequence of events, the interval timer is armed exactly
    when the loop is running and holds both a location and a motion
    sample, and the time of the next transmission is set exactly while
    the timer is armed. *)
Theorem timer_is_armed_iff_running_with_samples (events : list Loop.Event) :
  timer_ok (Loop.run events Loop.initial).
Proof.
  induction events as [|e events IH] using rev_ind.
  - split; reflexivity.
  - rewrite run_snoc. now apply timer_step_ok.
Qed.

(** ** The statistics never go back *)

Lemma update_stats_grows (result : Client.SendResult) (t : Loop.TransmissionStats) :
  Loop.totalTransmissions (Loop.update_stats result t)
  = Loop.totalTransmissions t + 1
  /\ Loop.successfulTransmissions t
     <= Loop.successfulTransmissions (Loop.update_stats result t)
     <= Loop.successfulTransmissions t + 1.
Proof. simpl. destruct (Client.success result); lia. Qed.

(** X17. The counters of the in-memory statistics never decrease, from
    any state and over any sequence of events: stopping and restarting
    the loop does not reset them. *)
Theorem statistics_never_decrease (events : list Loop.Event) (s : Loop.State) :
  Loop.totalTransmissions (Loop.transmissionStats s)
  <= Loop.totalTransmissions (Loop.transmissionStats (Loop.run events s))
  /\ Loop.successfulTransmissions (Loop.transmissionStats s)
     <= Loop.successfulTransmissions (Loop.transmissionStats (Loop.run events s)).
Proof.
  induction events as [|e events IH] using rev_ind.
  - simpl. lia.
  - rewrite run_snoc.
    destruct (stats_step e (Loop.run events s)) as [-> | [r ->]]; [exact IH|].
    pose proof (update_stats_grows r (Loop.transmissionStats (Loop.run events s))).
    lia.
Qed.

(** ** Samples are kept *)

Lemma samples_step_kept (e : Loop.Event) (s : Loop.State) :
  (is_some (Sensors.gpsData (Loop.sensors s)) = true ->
   is_some (Sensors.gpsData (Loop.sensors (Loop.step e s))) = true)
  /\ (is_some (Sensors.accelerometerData (Loop.sensors s)) = true ->
      is_some (Sensors.accelerometerData (Loop.sensors (Loop.step e s))) = true).
Proof.
  destruct e; cbn [Loop.step].
  - unfold Loop.toggleTransmission.
    destruct (negb (Loop.isTransmitting s)).
    + destruct (Sensors.is_granted (Sensors.gps _)),
               (Sensors.is_granted (Sensors.motion _));
        cbn [negb andb];
        try (destruct (transmit_effect_keeps now
               (Loop.showStatusMessage Loop.msg_success "Transmission started"
                  (Loop.setIsTransmitting true s))) as (_ & -> & _));
        loop_simpl;
        repeat match goal with
          | |- context [Sensors.requestMotionPermission ?m ?x] =>
              destruct (requestMotionPermission_keeps_data m x) as [-> ->]
          | |- context [Sensors.requestGPSPermission ?g ?x] =>
              destruct (requestGPSPermission_keeps_data g x) as [-> ->]
          end; auto.
    + destruct (transmit_effect_keeps now
               (Loop.showStatusMessage Loop.msg_success "Transmission stopped"
                  (Loop.setConnectionStatus Loop.disconnected
                     (Loop.setIsTransmitting false s)))) as (_ & -> & _).
      auto.
  - destruct (transmit_effect_keeps now
                (Loop.setEsp32Client (Some (Client.mkESP32Client ip))
                   (Loop.transmit_effect now (Loop.setEsp32IpAddress ip s))))
      as (_ & -> & _). loop_simpl.
    destruct (transmit_effect_keeps now (Loop.setEsp32IpAddress ip s))
      as (_ & -> & _). auto.
  - loop_simpl.
    destruct (requestGPSPermission_keeps_data g (Loop.sensors s)) as [-> ->]. auto.
  - loop_simpl.
    destruct (requestMotionPermission_keeps_data m (Loop.sensors s)) as [-> ->].
    auto.
  - destruct (Loop.gps_tracking s); [|auto].
    destruct (transmit_effect_keeps now
                (Loop.with_sensors (Sensors.on_position lat lon acc now) s))
      as (_ & -> & _). loop_simpl. auto.
  - destruct (Loop.gps_tracking s); loop_simpl; auto.
  - destruct (Loop.motion_tracking s); [|auto].
    destruct g as [[[gx gy] gz]|]; [|auto].
    destruct (transmit_effect_keeps now
                (Loop.with_sensors
                   (Sensors.handleMotion (Some (gx, gy, gz)) now) s))
      as (_ & -> & _). loop_simpl. auto.
  - destruct (Loop.interval s); [|auto]. unfold Loop.interval_callback.
    loop_simpl. destruct (sendDataToESP32_keeps now s) as (_ & -> & _). auto.
  - destruct (nth_error (Loop.in_flight s) i) as [a|]; [|auto].
    destruct (Loop.at_phase a); auto.
    unfold Loop.on_send_result. destruct (Client.success _); auto.
  - destruct (nth_error (Loop.in_flight s) i) as [a|]; [|auto].
    destruct (Loop.at_phase a); auto.
    unfold Loop.on_sensor_post. destruct posted; auto.
  - destruct (nth_error (Loop.in_flight s) i) as [a|]; [|auto].
    destruct (Loop.at_phase a); auto.
  - auto.
Qed.

(** X18. A sample, once received, is never cleared: after any further
    events - stopping the loop, a denied permission, a position error -
    the page still holds a location sample if it held one, and likewise a
    motion sample. *)
Theorem samples_are_never_cleared (events : list Loop.Event) (s : Loop.State) :
  (is_some (Sensors.gpsData (Loop.sensors s)) = true ->
   is_some (Sensors.gpsData (Loop.sensors (Loop.run events s))) = true)
  /\ (is_some (Sensors.accelerometerData (Loop.sensors s)) = true ->
      is_some (Sensors.accelerometerData (Loop.sensors (Loop.run events s))) = true).
Proof.
  induction events as [|e events IH] using rev_ind.
  - simpl. auto.
  - rewrite run_snoc.
    destruct (samples_step_kept e (Loop.run events s)) as [H1 H2].
    destruct IH as [IH1 IH2]. split; auto.
Qed.

(** ** Attempts in flight *)

Section NthFacts.
Context {A : Type} (p : A -> bool).

Lemma count_app (l l' : list A) : count p (l ++ l') = count p l + count p l'.
Proof. unfold count. rewrite filter_app, length_app. lia. Qed.

Lemma count_single (a : A) : count p [a] = Z.b2z (p a).
Proof. unfold count. simpl. now destruct (p a). Qed.

Lemma count_replace (i : nat) (a v : A) (l : list A) :
  nth_error l i = Some a ->
  count p (Loop.replace_nth i v l) = count p l - Z.b2z (p a) + Z.b2z (p v).
Proof.
  unfold count. revert i. induction l as [|b l IH]; intros [|i] H; simpl in *;
    try discriminate.
  - inversion H; subst. destruct (p a), (p v); cbn [List.length Z.b2z]; lia.
  - specialize (IH i H). destruct (p b); cbn [List.length Z.b2z] in *; lia.
Qed.

Lemma count_remove (i : nat) (a : A) (l : list A) :
  nth_error l i = Some a ->
  count p (Loop.remove_nth i l) = count p l - Z.b2z (p a).
Proof.
  unfold count. revert i. induction l as [|b l IH]; intros [|i] H; simpl in *;
    try discriminate.
  - inversion H; subst. destruct (p a); cbn [List.length Z.b2z]; lia.
  - specialize (IH i H). destruct (p b); cbn [List.length Z.b2z] in *; lia.
Qed.

Lemma existsb_replace_other (i : nat) (a v : A) (l : list A) :
  nth_error l i = Some a -> p a = false ->
  existsb p l = true -> existsb p (Loop.replace_nth i v l) = true.
Proof.
  revert i. induction l as [|b l IH]; intros [|i] H Ha; simpl in *;
    try discriminate.
  - inversion H; subst. rewrite Ha. simpl. intros ->. apply orb_true_r.
  - intros E. apply orb_true_iff in E. apply orb_true_iff.
    destruct E as [E|E]; [now left | right; now apply (IH i)].
Qed.

Lemma existsb_remove_other (i : nat) (a : A) (l : list A) :
  nth_error l i = Some a -> p a = false ->
  existsb p l = true -> existsb p (Loop.remove_nth i l) = true.
Proof.
  revert i. induction l as [|b l IH]; intros [|i] H Ha; simpl in *;
    try discriminate.
  - inversion H; subst. now rewrite Ha.
  - intros E. apply orb_true_iff in E. apply orb_true_iff.
    destruct E as [E|E]; [now left | right; now apply (IH i)].
Qed.

Lemma nth_error_replace (i : nat) (a v : A) (l : list A) :
  nth_error l i = Some a -> nth_error (Loop.replace_nth i v l) i = Some v.
Proof.
  revert i. induction l as [|b l IH]; intros [|i] H; simpl in *;
    try discriminate; auto.
Qed.

Lemma replace_replace (i : nat) (v w : A) (l : list A) :
  Loop.replace_nth i v (Loop.replace_nth i w l) = Loop.replace_nth i v l.
Proof.
  revert i. induction l as [|b l IH]; intros [|i]; simpl; auto.
  now rewrite IH.
Qed.

Lemma remove_replace (i : nat) (v : A) (l : list A) :
  Loop.remove_nth i (Loop.replace_nth i v l) = Loop.remove_nth i l.
Proof.
  revert i. induction l as [|b l IH]; intros [|i]; simpl; auto.
  now rewrite IH.
Qed.

End NthFacts.

Lemma phase_flags (a : Loop.Attempt) (ph : Loop.Phase) :
  awaits_send (Loop.set_phase ph a)
  = match ph with Loop.AwaitSend => true | _ => false end
  /\ awaits_log (Loop.set_phase ph a)
     = match ph with Loop.AwaitLogPost _ => true | _ => false end.
Proof. split; reflexivity. Qed.

Lemma connecting_sendData (now : Z) (s : Loop.State) :
  connecting_ok s -> connecting_ok (Loop.sendDataToESP32 now s).
Proof.
  intros H. destruct (sendDataToESP32_cases now s) as [-> | (c & g & a & ->)].
  - exact H.
  - unfold connecting_ok. loop_simpl. intros _.
    rewrite existsb_app. simpl. apply orb_true_r.
Qed.

Lemma connecting_effect (now : Z) (s : Loop.State) :
  connecting_ok s -> connecting_ok (Loop.transmit_effect now s).
Proof.
  intros H.
  assert (Hc : connecting_ok
                 (Loop.setNextTransmission None (Loop.set_interval false s)))
    by exact H.
  destruct (transmit_effect_cases now s) as [[_ ->] | [_ ->]]; [|exact Hc].
  exact (connecting_sendData now _ Hc).
Qed.

Lemma connecting_step_ok (e : Loop.Event) (s : Loop.State) :
  connecting_ok s -> connecting_ok (Loop.step e s).
Proof.
  intros H. destruct e; cbn [Loop.step].
  - unfold Loop.toggleTransmission.
    destruct (negb (Loop.isTransmitting s)).
    + destruct (Sensors.is_granted (Sensors.gps _)),
               (Sensors.is_granted (Sensors.motion _));
        cbn [negb andb]; try apply connecting_effect; exact H.
    + apply connecting_effect. unfold connecting_ok. loop_simpl. discriminate.
  - apply connecting_effect.
    assert (H0 : connecting_ok (Loop.setEsp32IpAddress ip s)) by exact H.
    exact (connecting_effect now _ H0).
  - exact H.
  - exact H.
  - destruct (Loop.gps_tracking s); [apply connecting_effect|]; exact H.
  - destruct (Loop.gps_tracking s); exact H.
  - destruct (Loop.motion_tracking s); [|exact H].
    destruct g; [apply connecting_effect|]; exact H.
  - destruct (Loop.interval s); [|exact H].
    unfold Loop.interval_callback.
    exact (connecting_sendData now s H).
  - destruct (nth_error (Loop.in_flight s) i) as [a|]; [|exact H].
    destruct (Loop.at_phase a); try exact H.
    unfold Loop.on_send_result, connecting_ok.
    destruct (Client.success _); loop_simpl; discriminate.
  - destruct (nth_error (Loop.in_flight s) i) as [a|] eqn:Hi; [|exact H].
    destruct (Loop.at_phase a) eqn:Hp; try exact H.
    assert (Ha : awaits_send a = false) by (unfold awaits_send; now rewrite Hp).
    unfold Loop.on_sensor_post, Loop.finish, connecting_ok in *.
    destruct posted; loop_simpl; intros Hc; specialize (H Hc).
    + now apply (existsb_replace_other awaits_send i a).
    + now apply (existsb_remove_other awaits_send i a).
  - destruct (nth_error (Loop.in_flight s) i) as [a|] eqn:Hi; [|exact H].
    destruct (Loop.at_phase a) eqn:Hp; try exact H.
    assert (Ha : awaits_send a = false) by (unfold awaits_send; now rewrite Hp).
    unfold Loop.finish, connecting_ok in *. loop_simpl.
    intros Hc; specialize (H Hc).
    now apply (existsb_remove_other awaits_send i a).
  - exact H.
Qed.

(** X19. After any sequence of events, whenever the connection state is
    [connecting] there is an attempt in flight that still awaits the
    result of its send. *)
Theorem connecting_means_a_send_is_awaited (events : list Loop.Event) :
  connecting_ok (Loop.run events Loop.initial).
Proof.
  induction events as [|e events IH] using rev_ind.
  - unfold connecting_ok. simpl. discriminate.
  - rewrite run_snoc. now apply connecting_step_ok.
Qed.

(** ** Requests to the persistence routes *)

Lemma past_send_phase (a : Loop.Attempt) :
  past_send a = match Loop.at_phase a with Loop.AwaitSend => false | _ => true end.
Proof. unfold past_send, awaits_send. now destruct (Loop.at_phase a). Qed.

Lemma awaits_log_phase (a : Loop.Attempt) :
  awaits_log a
  = match Loop.at_phase a with Loop.AwaitLogPost _ => true | _ => false end.
Proof. reflexivity. Qed.

Ltac flags Hp :=
  rewrite ?past_send_phase, ?awaits_log_phase;
  cbn [Loop.at_phase Loop.set_phase attempt_for is_sensor_post is_log_post];
  rewrite ?Hp; cbn [Z.b2z Loop.update_stats Loop.totalTransmissions].

Lemma persistence_sendData (now : Z) (s : Loop.State) :
  persistence_ok s -> persistence_ok (Loop.sendDataToESP32 now s).
Proof.
  intros H. destruct (sendDataToESP32_cases now s) as [-> | (c & g & a & ->)].
  - exact H.
  - unfold persistence_ok in *. loop_simpl.
    rewrite !count_app, !count_single.
    rewrite past_send_phase, awaits_log_phase.
    cbn [Loop.at_phase attempt_for Z.b2z]. lia.
Qed.

Lemma persistence_effect (now : Z) (s : Loop.State) :
  persistence_ok s -> persistence_ok (Loop.transmit_effect now s).
Proof.
  intros H.
  assert (Hc : persistence_ok
                 (Loop.setNextTransmission None (Loop.set_interval false s)))
    by exact H.
  destruct (transmit_effect_cases now s) as [[_ ->] | [_ ->]]; [|exact Hc].
  exact (persistence_sendData now _ Hc).
Qed.

Lemma persistence_step_ok (e : Loop.Event) (s : Loop.State) :
  persistence_ok s -> persistence_ok (Loop.step e s).
Proof.
  intros H. destruct e; cbn [Loop.step].
  - unfold Loop.toggleTransmission.
    destruct (negb (Loop.isTransmitting s)).
    + destruct (Sensors.is_granted (Sensors.gps _)),
               (Sensors.is_granted (Sensors.motion _));
        cbn [negb andb]; try apply persistence_effect; exact H.
    + apply persistence_effect. exact H.
  - apply persistence_effect.
    assert (H0 : persistence_ok (Loop.setEsp32IpAddress ip s)) by exact H.
    exact (persistence_effect now _ H0).
  - exact H.
  - exact H.
  - destruct (Loop.gps_tracking s); [apply persistence_effect|]; exact H.
  - destruct (Loop.gps_tracking s); exact H.
  - destruct (Loop.motion_tracking s); [|exact H].
    destruct g; [apply persistence_effect|]; exact H.
  - destruct (Loop.interval s); [|exact H].
    unfold Loop.interval_callback.
    exact (persistence_sendData now s H).
  - destruct (nth_error (Loop.in_flight s) i) as [a|] eqn:Hi; [|exact H].
    destruct (Loop.at_phase a) eqn:Hp; try exact H.
    unfold Loop.on_send_result, persistence_ok in *.
    destruct (Client.success _); loop_simpl;
      rewrite !count_app, !count_single, !(count_replace _ i a _ _ Hi);
      flags Hp; lia.
  - destruct (nth_error (Loop.in_flight s) i) as [a|] eqn:Hi; [|exact H].
    destruct (Loop.at_phase a) eqn:Hp; try exact H.
    unfold Loop.on_sensor_post, Loop.finish, persistence_ok in *.
    destruct posted; loop_simpl.
    + rewrite !count_app, !count_single, !(count_replace _ i a _ _ Hi).
      flags Hp. lia.
    + rewrite !(count_remove _ i a _ Hi). flags Hp. lia.
  - destruct (nth_error (Loop.in_flight s) i) as [a|] eqn:Hi; [|exact H].
    destruct (Loop.at_phase a) eqn:Hp; try exact H.
    unfold Loop.finish, persistence_ok in *. loop_simpl.
    rewrite !(count_remove _ i a _ Hi). flags Hp. lia.
  - exact H.
Qed.

Lemma awaits_log_past_send (l : list Loop.Attempt) :
  count awaits_log l <= count past_send l.
Proof.
  unfold count. induction l as [|a l IH]; simpl; [lia|].
  unfold awaits_log at 1, past_send at 1, awaits_send.
  destruct (Loop.at_phase a); cbn [negb List.length]; lia.
Qed.

(** X20. After any sequence of events, the sample requests issued to the
    persistence routes are as many as the transmissions counted in the
    statistics plus the attempts in flight that have their result; and
    there are never more log requests than sample requests. *)
Theorem persistence_requests_account_for_attempts (events : list Loop.Event) :
  let s := Loop.run events Loop.initial in
  count is_sensor_post (Loop.api_calls s)
  = Loop.totalTransmissions (Loop.transmissionStats s)
    + count past_send (Loop.in_flight s)
  /\ count is_log_post (Loop.api_calls s)
     <= count is_sensor_post (Loop.api_calls s).
Proof.
  cbv zeta.
  assert (H : persistence_ok (Loop.run events Loop.initial)).
  { induction events as [|e events IH] using rev_ind.
    - split; vm_compute; [reflexivity | discriminate].
    - rewrite run_snoc. now apply persistence_step_ok. }
  destruct H as [H1 H2]. split; [exact H1|].
  pose proof (awaits_log_past_send (Loop.in_flight (Loop.run events Loop.initial))).
  lia.
Qed.

(** ** Sends outside the two-second period *)

Lemma transmit_effect_sends (now : Z) (s : Loop.State) c g a :
  Loop.isTransmitting s = true ->
  Loop.esp32Client s = Some c ->
  Sensors.gpsData (Loop.sensors s) = Some g ->
  Sensors.accelerometerData (Loop.sensors s) = Some a ->
  Loop.transmit_effect now s
  = Loop.setNextTransmission (Some (now + 2000))
      (Loop.set_interval true
         (Loop.set_in_flight
            (Loop.in_flight s ++ [attempt_for c (Loop.esp32IpAddress s) g a now])
            (Loop.setConnectionStatus Loop.connecting
               (Loop.setNextTransmission None (Loop.set_interval false s))))).
Proof.
  intros Ht Hc Hg Ha. unfold Loop.transmit_effect. loop_simpl.
  rewrite Ht, Hg, Ha.
  rewrite (sendDataToESP32_starts now
             (Loop.setNextTransmission None (Loop.set_interval false s))
             c g a Hc Hg Ha).
  reflexivity.
Qed.

(** X21. Starting the loop while samples are held from an earlier run
    (both permissions granted) sends at once: one attempt is added for the
    held samples and the current address, the connection state becomes
    [connecting], the timer is armed and the next transmission is
    announced for two seconds later. *)
Theorem start_with_samples_sends_at_once
  (gr : Sensors.GPSRequest) (mr : Sensors.MotionRequest) (now : Z)
  (s : Loop.State) (c : Client.ESP32Client)
  (g : Sensors.GPSData) (a : Sensors.AccelerometerData) :
  Loop.isTransmitting s = false ->
  Sensors.gps (Sensors.permissions (Loop.sensors s)) = Sensors.granted ->
  Sensors.motion (Sensors.permissions (Loop.sensors s)) = Sensors.granted ->
  Loop.esp32Client s = Some c ->
  Sensors.gpsData (Loop.sensors s) = Some g ->
  Sensors.accelerometerData (Loop.sensors s) = Some a ->
  let s' := Loop.step (Loop.Toggle gr mr now) s in
  Loop.isTransmitting s' = true
  /\ Loop.in_flight s'
     = Loop.in_flight s ++ [attempt_for c (Loop.esp32IpAddress s) g a now]
  /\ Loop.connectionStatus s' = Loop.connecting
  /\ Loop.interval s' = true
  /\ Loop.nextTransmission s' = Some (now + 2000)
  /\ Loop.sensors s' = Loop.sensors s.
Proof.
  intros Hidle Hg Hm Hc Hgd Had. cbv zeta. cbn [Loop.step].
  unfold Loop.toggleTransmission. rewrite Hidle, Hg, Hm.
  cbn [negb andb Sensors.is_granted].
  rewrite (transmit_effect_sends now _ c g a); try assumption; try reflexivity.
  repeat split.
Qed.

Lemma start_with_samples_sends_at_once_witness :
  Loop.connectionStatus
    (Loop.step (Loop.Toggle Sensors.PositionObtained
                  Sensors.NoPermissionFunction 50) stopped_with_samples)
  = Loop.connecting
  /\ Loop.interval
       (Loop.step (Loop.Toggle Sensors.PositionObtained
                     Sensors.NoPermissionFunction 50) stopped_with_samples)
     = true.
Proof.
  destruct (start_with_samples_sends_at_once Sensors.PositionObtained
              Sensors.NoPermissionFunction 50 stopped_with_samples
              client50 held_position held_motion
              eq_refl eq_refl eq_refl eq_refl eq_refl eq_refl)
    as (_ & _ & H3 & H4 & _).
  split; [exact H3 | exact H4].
Defined.

(** X22. While the loop runs with a motion sample, each position reading
    sends at once, with the new position, and restarts the two-second
    period: it does not wait for the next tick of the timer. *)
Theorem position_reading_sends_at_once
  (lat lon acc : Q) (now : Z) (s : Loop.State) (c : Client.ESP32Client)
  (a : Sensors.AccelerometerData) :
  Loop.isTransmitting s = true ->
  Sensors.gps (Sensors.permissions (Loop.sensors s)) = Sensors.granted ->
  Loop.esp32Client s = Some c ->
  Sensors.accelerometerData (Loop.sensors s) = Some a ->
  let s' := Loop.step (Loop.Position lat lon acc now) s in
  Loop.in_flight s'
  = Loop.in_flight s
    ++ [attempt_for c (Loop.esp32IpAddress s)
          (Sensors.mkGPSData lat lon (Some acc) now) a now]
  /\ Loop.connectionStatus s' = Loop.connecting
  /\ Loop.interval s' = true
  /\ Loop.nextTransmission s' = Some (now + 2000).
Proof.
  intros Ht Hg Hc Ha. cbv zeta. cbn [Loop.step].
  unfold Loop.gps_tracking. rewrite Ht, Hg. cbn [andb Sensors.is_granted].
  rewrite (transmit_effect_sends now _ c
             (Sensors.mkGPSData lat lon (Some acc) now) a);
    try assumption; try reflexivity.
  repeat split.
Qed.

Lemma position_reading_sends_at_once_witness :
  List.length
    (Loop.in_flight
       (Loop.step (Loop.Position (inject_Z 49) (inject_Z 3) (inject_Z 4) 25)
          (Loop.run start_and_send Loop.initial)))
  = 2%nat.
Proof.
  destruct (position_reading_sends_at_once (inject_Z 49) (inject_Z 3)
              (inject_Z 4) 25 (Loop.run start_and_send Loop.initial)
              client50 held_motion eq_refl eq_refl eq_refl eq_refl)
    as (H & _).
  rewrite H. reflexivity.
Defined.



(** ** One attempt from its result to its end *)

(** X24. An attempt that awaits its send is counted exactly once: when
    its send and its persistence requests have settled, the statistics are
    updated with its result whether or not the persistence requests
    succeeded, the attempt is gone, the connection state is the one of
    the result, and the requests issued are the sample request followed,
    only if that one succeeded, by the log request with the result. *)
Theorem attempt_is_counted_once
  (s : Loop.State) (i : nat) (a : Loop.Attempt) (net : Client.Network)
  (now : Z) (sample_posted log_posted : bool) :
  nth_error (Loop.in_flight s) i = Some a ->
  Loop.at_phase a = Loop.AwaitSend ->
  let result := Client.sendData net (Loop.at_client a) (Loop.at_data a) in
  let s' := Loop.run (lifecycle i net now sample_posted log_posted) s in
  Loop.transmissionStats s'
  = Loop.update_stats result (Loop.transmissionStats s)
  /\ Loop.in_flight s' = Loop.remove_nth i (Loop.in_flight s)
  /\ Loop.connectionStatus s'
     = (if Client.success result then Loop.connected else Loop.disconnected)
  /\ Loop.api_calls s'
     = Loop.api_calls s
       ++ Loop.PostSensorData (Loop.sensor_body a)
          :: (if sample_posted
              then [Loop.PostTransmissionLog (Loop.at_ip a)
                      (Client.success result) (Client.error result)]
              else []).
Proof.
  intros Hi Hp result s'. unfold s', lifecycle, Loop.run.
  rewrite fold_left_app. cbn [fold_left Loop.step].
  rewrite Hi, Hp. fold result.
  set (s1 := Loop.on_send_result i a result now s).
  assert (H1 : Loop.in_flight s1
               = Loop.replace_nth i
                   (Loop.set_phase (Loop.AwaitSensorPost result) a)
                   (Loop.in_flight s))
    by (unfold s1, Loop.on_send_result; destruct (Client.success result);
        reflexivity).
  assert (H2 : Loop.transmissionStats s1 = Loop.transmissionStats s)
    by (unfold s1, Loop.on_send_result; destruct (Client.success result);
        reflexivity).
  assert (H3 : Loop.connectionStatus s1
               = (if Client.success result
                  then Loop.connected else Loop.disconnected))
    by (unfold s1, Loop.on_send_result; destruct (Client.success result);
        reflexivity).
  assert (H4 : Loop.api_calls s1
               = Loop.api_calls s ++ [Loop.PostSensorData (Loop.sensor_body a)])
    by (unfold s1, Loop.on_send_result; destruct (Client.success result);
        reflexivity).
  rewrite H1, (nth_error_replace i a _ _ Hi).
  cbn [Loop.at_phase Loop.set_phase].
  unfold Loop.on_sensor_post, Loop.finish.
  destruct sample_posted; cbn [fold_left Loop.step]; loop_simpl.
  - rewrite H1, replace_replace, (nth_error_replace i a _ _ Hi).
    cbn [Loop.at_phase Loop.set_phase]. unfold Loop.finish. loop_simpl.
    rewrite remove_replace, H2, H3, H4, <- app_assoc. repeat split.
  - rewrite H1, remove_replace, H2, H3, H4. repeat split.
Qed.

Lemma attempt_is_counted_once_witness :
  Loop.totalTransmissions
    (Loop.transmissionStats
       (Loop.run (lifecycle 0 device_ok 40 false false)
          (Loop.run start_and_send Loop.initial)))
  = 1.
Proof.
  destruct (attempt_is_counted_once (Loop.run start_and_send Loop.initial) 0
              (attempt_for client50 "192.168.1.50" held_position held_motion 20)
              device_ok 40 false false eq_refl eq_refl) as (H & _).
  rewrite H. reflexivity.
Defined.
